(** * StaticPlanBlockMemory: static storage planning for relax functions

    A shallow embedding of the relax transform [StaticPlanBlockMemory] as
    exercised by tests/python/relax/test_transform_static_plan_block_memory.py.

    The C++ implementation of the pass is not part of this repository
    snapshot; only its tests are.  The pass below is modelled from the spec
    (Eligibility Gate, Liveness Analyzer, Token Allocator, Rewriter), and
    wherever the repository's tests fix a behaviour, the tests are followed;
    the places where this matters are pointed out at the definitions.  The
    module [Tests] transcribes the tests and checks that the model reproduces
    every expected output. *)

From Stdlib Require Import List String ZArith Lia Bool Arith Sorting.Sorted.
Import ListNotations.
Set Warnings "-register-all".
Open Scope list_scope.

(** ** The IR *)

Inductive var : Type :=
| V (name : string)
| VStorage (k : nat).       (* the k-th [storage] object created by the pass *)

Arguments V name%_string_scope.

Definition var_eqb (a b : var) : bool :=
  match a, b with
  | V x, V y => String.eqb x y
  | VStorage i, VStorage j => Nat.eqb i j
  | _, _ => false
  end.

Inductive dtype : Type := DFloat32 | DInt32 | DBool.

Definition dtype_eqb (a b : dtype) : bool :=
  match a, b with
  | DFloat32, DFloat32 | DInt32, DInt32 | DBool, DBool => true
  | _, _ => false
  end.

Definition dtype_bytes (d : dtype) : Z :=
  match d with DFloat32 => 4 | DInt32 => 4 | DBool => 1 end.

(** A shape dimension: a compile-time integer or a symbolic variable. *)
Inductive dim : Type :=
| DConst (n : Z)
| DSym (name : string).

Inductive atom : Type :=
| AVar (v : var)
| AConst.                   (* R.const(...) *)

(** Binding values.  [ECallKernel k ins outs] is a call [cls.k(ins.., outs..)]
    to a prim func in destination-passing style; [EOpaque] is any other call
    (e.g. [R.add]); the last four constructors are what the pass emits. *)
Inductive expr : Type :=
| EAllocTensor (shape : list dim) (dt : dtype) (dev : nat) (scope : string)
| ECallKernel (kernel : string) (ins outs : list atom)
| ECopy (v : var)
| ETuple (fields : list var)
| EGetItem (tup : var) (index : nat)
| EReshape (src : var) (shape : list dim)
| EOpaque (op : string) (args : list atom)
| EIf (cond : var) (then_ else_ : list (var * expr))
| EAllocStorage (size : Z) (dev : nat) (scope : string) (dt : dtype)
| EMemAllocTensor (storage : var) (offset : Z) (shape : list dim) (dt : dtype)
| EKillTensor (v : var)
| EKillStorage (v : var).

Arguments EAllocTensor shape dt dev scope%_string_scope.
Arguments ECallKernel kernel%_string_scope ins outs.
Arguments EOpaque op%_string_scope args.
Arguments EAllocStorage size dev scope%_string_scope dt.
Arguments DSym name%_string_scope.

Definition binding : Type := (var * expr)%type.

Record function : Type := mkFunction {
  params : list var;
  body : list binding;
  ret : var
}.

Inductive item : Type :=
| IPrimFunc (name : string)
| IRelaxFunc (name : string) (f : function).

Arguments IPrimFunc name%_string_scope.
Arguments IRelaxFunc name%_string_scope f.

Definition IRModule : Type := list item.

(** Storage class of a tensor or a token: element type, device, scope. *)
Definition sclass : Type := (dtype * nat * string)%type.

Definition sclass_eqb (a b : sclass) : bool :=
  let '(d1, v1, s1) := a in
  let '(d2, v2, s2) := b in
  dtype_eqb d1 d2 && Nat.eqb v1 v2 && String.eqb s1 s2.

(** ** Eligibility Gate *)

Definition dim_is_const (d : dim) : bool :=
  match d with DConst _ => true | DSym _ => false end.

(** A binding of a recognized form.  Reshape is accepted as a view: the
    test [test_basic] plans a function containing [R.reshape]. *)
Definition binding_recognized (b : binding) : bool :=
  match snd b with
  | EAllocTensor shape _ _ _ => forallb dim_is_const shape
  | ECallKernel _ _ _ | ECopy _ | ETuple _ | EGetItem _ _ | EReshape _ _ => true
  | _ => false
  end.

Definition plannable (f : function) : bool :=
  forallb binding_recognized (body f).

(** ** Byte sizes *)

Fixpoint shape_elems (s : list dim) : option Z :=
  match s with
  | [] => Some 1%Z
  | DConst n :: s' => option_map (Z.mul n) (shape_elems s')
  | DSym _ :: _ => None
  end.

Definition tensor_bytes (s : list dim) (dt : dtype) : option Z :=
  option_map (fun n => (n * dtype_bytes dt)%Z) (shape_elems s).

(** ** Liveness Analyzer *)

(** The allocations a value may denote, kept per tuple field. *)
Inductive nmsg : Type :=
| NLeaf (ids : list var)
| NTuple (fields : list nmsg).

Fixpoint msg_flatten (m : nmsg) : list var :=
  match m with
  | NLeaf ids => ids
  | NTuple fs =>
      (fix go (l : list nmsg) : list var :=
         match l with [] => [] | m' :: l' => msg_flatten m' ++ go l' end) fs
  end.

Definition msg_get (m : nmsg) (i : nat) : nmsg :=
  match m with
  | NTuple fs => nth i fs (NLeaf [])
  | NLeaf ids => NLeaf ids
  end.

Definition env : Type := list (var * nmsg).

Fixpoint env_lookup (v : var) (e : env) : nmsg :=
  match e with
  | [] => NLeaf []
  | (w, m) :: e' => if var_eqb v w then m else env_lookup v e'
  end.

Definition ids_of (e : env) (v : var) : list var := msg_flatten (env_lookup v e).

(** What the variable bound by [x = ex] denotes. *)
Definition binding_msg (e : env) (x : var) (ex : expr) : nmsg :=
  match ex with
  | EAllocTensor _ _ _ _ => NLeaf [x]
  | ECopy v => env_lookup v e
  | ETuple fs => NTuple (map (fun v => env_lookup v e) fs)
  | EGetItem t i => msg_get (env_lookup t e) i
  | EReshape v _ => env_lookup v e
  | _ => NLeaf []
  end.

Definition atom_vars (l : list atom) : list var :=
  flat_map (fun a => match a with AVar v => [v] | AConst => [] end) l.

(** The allocations a binding uses.  Output buffers of a kernel call count as
    uses: in [test_different_dtype] the tensor written by [cls.add] and never
    read is released right after that call. *)
Definition binding_uses (e : env) (ex : expr) : list var :=
  match ex with
  | ECallKernel _ ins outs => flat_map (ids_of e) (atom_vars (ins ++ outs))
  | ETuple fs => flat_map (ids_of e) fs
  | _ => []
  end.

(** Each binding with its position and the alias environment before it. *)
Fixpoint annotate (q : nat) (e : env) (bs : list binding)
  : list (nat * env * binding) :=
  match bs with
  | [] => []
  | (x, ex) :: bs' => (q, e, (x, ex)) :: annotate (S q) ((x, binding_msg e x ex) :: e) bs'
  end.

Fixpoint env_after (e : env) (bs : list binding) : env :=
  match bs with
  | [] => e
  | (x, ex) :: bs' => env_after ((x, binding_msg e x ex) :: e) bs'
  end.

Definition ann_pos (a : nat * env * binding) : nat := fst (fst a).

Definition uses_list (ann : list (nat * env * binding)) : list (list var) :=
  map (fun a => binding_uses (snd (fst a)) (snd (snd a))) ann.

(** Allocations that reach the return value. *)
Definition returned (f : function) : list var :=
  ids_of (env_after [] (body f)) (ret f).

(** The last position after [d] at which [x] is used. *)
Fixpoint last_use_from (x : var) (d q : nat) (us : list (list var)) (acc : option nat)
  : option nat :=
  match us with
  | [] => acc
  | u :: us' =>
      last_use_from x d (S q) us'
        (if (d <? q) && existsb (var_eqb x) u then Some q else acc)
  end.

Definition last_use (x : var) (d : nat) (us : list (list var)) : option nat :=
  last_use_from x d 0 us None.

(** Reshape views of [x] created before its last use [q]: they are released
    together with [x] ([kill_tensor(lv1)] in [test_basic]). *)
Definition views_of (ann : list (nat * env * binding)) (x : var) (lu : option nat)
  : list var :=
  match lu with
  | None => []
  | Some q =>
      flat_map (fun a =>
        match snd a with
        | (v, EReshape src _) =>
            if (ann_pos a <? q) && existsb (var_eqb x) (ids_of (snd (fst a)) src)
            then [v] else []
        | _ => []
        end) ann
  end.

Record alloc_rec : Type := mkRec {
  ar_var : var;
  ar_shape : list dim;
  ar_dtype : dtype;
  ar_dev : nat;
  ar_scope : string;
  ar_size : Z;
  ar_def : nat;
  ar_last : option nat;
  ar_views : list var
}.

Definition ar_class (r : alloc_rec) : sclass := (ar_dtype r, ar_dev r, ar_scope r).

(** End of the live range; a tensor never used ends at its definition. *)
Definition ar_end (r : alloc_rec) : nat :=
  match ar_last r with Some q => q | None => ar_def r end.

(** The allocation record of a binding, if it is a planned allocation.  An
    allocation that reaches the return value is not planned ([alloc4] of
    [test_basic] keeps its [R.builtin.alloc_tensor]). *)
Definition record_of (ann : list (nat * env * binding)) (us : list (list var))
  (rets : list var) (a : nat * env * binding) : list alloc_rec :=
  match snd a with
  | (x, EAllocTensor sh dt dev sc) =>
      if existsb (var_eqb x) rets then []
      else match tensor_bytes sh dt with
           | Some sz =>
               let lu := last_use x (ann_pos a) us in
               [mkRec x sh dt dev sc sz (ann_pos a) lu (views_of ann x lu)]
           | None => []
           end
  | _ => []
  end.

Definition alloc_records (f : function) : list alloc_rec :=
  let ann := annotate 0 [] (body f) in
  flat_map (record_of ann (uses_list ann) (returned f)) ann.

(** ** Token Allocator *)

Record token : Type := mkToken {
  tk_class : sclass;
  tk_cap : Z;       (* running maximum of the tenants' sizes *)
  tk_end : nat;     (* end of the live range of the current tenant *)
  tk_def : nat;     (* definition position of the current tenant *)
  tk_first : nat    (* definition position of the first tenant *)
}.

Definition default_token : token := mkToken (DFloat32, 0, EmptyString) 0 0 0 0.

(** Free tokens of class [c] at position [p] are those whose tenant ended
    before [p]; the one released first is taken (first by end position, then
    by the tenant's definition), as [test_nested_tuple] fixes. *)
Definition free_before (a b : nat * token) : bool :=
  (tk_end (snd a) <? tk_end (snd b))
  || ((tk_end (snd a) =? tk_end (snd b)) && (tk_def (snd a) <? tk_def (snd b))).

Fixpoint enum_from {A} (i : nat) (l : list A) : list (nat * A) :=
  match l with
  | [] => []
  | x :: l' => (i, x) :: enum_from (S i) l'
  end.

Definition pick_min (l : list (nat * token)) : option (nat * token) :=
  fold_left (fun acc a =>
    match acc with
    | None => Some a
    | Some b => if free_before a b then Some a else Some b
    end) l None.

Definition pick (toks : list token) (c : sclass) (p : nat) : option nat :=
  option_map fst
    (pick_min (filter (fun a => sclass_eqb (tk_class (snd a)) c && (tk_end (snd a) <? p))
                (enum_from 0 toks))).

Fixpoint update_nth {A} (i : nat) (g : A -> A) (l : list A) : list A :=
  match l, i with
  | [], _ => []
  | x :: l', 0 => g x :: l'
  | x :: l', S i' => x :: update_nth i' g l'
  end.

Definition plan_state : Type := (list token * list (alloc_rec * nat))%type.

Definition assign_one (st : plan_state) (r : alloc_rec) : plan_state :=
  let '(toks, asg) := st in
  match pick toks (ar_class r) (ar_def r) with
  | Some i =>
      (update_nth i (fun tk => mkToken (tk_class tk) (Z.max (tk_cap tk) (ar_size r))
                                       (ar_end r) (ar_def r) (tk_first tk)) toks,
       asg ++ [(r, i)])
  | None =>
      (toks ++ [mkToken (ar_class r) (ar_size r) (ar_end r) (ar_def r) (ar_def r)],
       asg ++ [(r, List.length toks)])
  end.

Definition plan_tokens (rs : list alloc_rec) : plan_state :=
  fold_left assign_one rs ([], []).

Definition plan (f : function) : plan_state := plan_tokens (alloc_records f).

(** ** Rewriter *)

Definition unit_var : var := V "_".

Fixpoint find_assign (q : nat) (asg : list (alloc_rec * nat)) : option (alloc_rec * nat) :=
  match asg with
  | [] => None
  | (r, t) :: asg' => if ar_def r =? q then Some (r, t) else find_assign q asg'
  end.

Definition last_is (q : nat) (r : alloc_rec) : bool :=
  match ar_last r with Some p => p =? q | None => false end.

(** Tensor-release markers after the binding at [q]. *)
Definition kill_tensors_at (asg : list (alloc_rec * nat)) (q : nat) : list binding :=
  flat_map (fun a =>
    if last_is q (fst a)
    then map (fun v => (unit_var, EKillTensor v)) (ar_var (fst a) :: ar_views (fst a))
    else []) asg.

Definition alloc_storage_of (tk : token) : expr :=
  let '(dt, dev, sc) := tk_class tk in EAllocStorage (tk_cap tk) dev sc dt.

Definition rewrite_binding (toks : list token) (asg : list (alloc_rec * nat))
  (q : nat) (b : binding) : list binding :=
  match find_assign q asg with
  | Some (r, t) =>
      let tk := nth t toks default_token in
      (if tk_first tk =? q then [(VStorage t, alloc_storage_of tk)] else [])
      ++ [(fst b, EMemAllocTensor (VStorage t) 0 (ar_shape r) (ar_dtype r))]
  | None => [b]
  end ++ kill_tensors_at asg q.

Fixpoint rewrite_body (toks : list token) (asg : list (alloc_rec * nat))
  (q : nat) (bs : list binding) : list binding :=
  match bs with
  | [] => []
  | b :: bs' => rewrite_binding toks asg q b ++ rewrite_body toks asg (S q) bs'
  end.

Definition kill_storages (n : nat) : list binding :=
  map (fun t => (unit_var, EKillStorage (VStorage t))) (seq 0 n).

(** Modelled from the spec: the pass StaticPlanBlockMemory, whose C++ source
    is absent from the repository.  A plannable function gets one pool
    creation before each token's first tenant, its allocations materialized
    at offset 0 of their tokens, tensor-release markers after last uses and
    one pool release per token at the end; any other function is kept. *)
Definition StaticPlanBlockMemory (f : function) : function :=
  if plannable f then
    let '(toks, asg) := plan f in
    mkFunction (params f) (rewrite_body toks asg 0 (body f) ++ kill_storages (List.length toks))
      (ret f)
  else f.

Definition StaticPlanBlockMemory_module (m : IRModule) : IRModule :=
  map (fun it =>
    match it with
    | IPrimFunc n => IPrimFunc n
    | IRelaxFunc n f => IRelaxFunc n (StaticPlanBlockMemory f)
    end) m.

(** ** Auxiliary definitions for the proofs *)

Definition tok (toks : list token) (t : nat) : token := nth t toks default_token.

(** [d] bounds the definitions of the tenants assigned so far. *)
Record alloc_inv (toks : list token) (asg : list (alloc_rec * nat)) (d : nat) : Prop := {
  ai_tenant : forall r t, In (r, t) asg ->
    t < List.length toks /\ ar_def r < d /\ ar_class r = tk_class (tok toks t)
    /\ (ar_size r <= tk_cap (tok toks t))%Z /\ ar_end r <= tk_end (tok toks t);
  ai_cap : forall t, t < List.length toks ->
    exists r, In (r, t) asg /\ ar_size r = tk_cap (tok toks t);
  ai_first : forall t, t < List.length toks ->
    exists r, In (r, t) asg /\ ar_def r = tk_first (tok toks t);
  ai_disjoint : forall r1 r2 t, In (r1, t) asg -> In (r2, t) asg ->
    ar_def r1 < ar_def r2 -> ar_end r1 < ar_def r2;
  ai_func : forall r1 t1 r2 t2, In (r1, t1) asg -> In (r2, t2) asg ->
    ar_def r1 = ar_def r2 -> r1 = r2 /\ t1 = t2
}.

Definition default_rec : alloc_rec := mkRec unit_var [] DFloat32 0 EmptyString 0 0 None [].

(** The record of the [i]-th assignment of the plan of [f]. *)
Definition asg_rec (f : function) (i : nat) : alloc_rec :=
  fst (nth i (snd (plan f)) (default_rec, 0)).

(** Bindings that the Eligibility Gate refuses: a branch, an opaque call, an
    allocation with a symbolic dimension. *)
Definition blocks_planning (b : binding) : bool :=
  match snd b with
  | EIf _ _ _ | EOpaque _ _ => true
  | EAllocTensor shape _ _ _ => negb (forallb dim_is_const shape)
  | _ => false
  end.

(** A call to anything other than a prim-func kernel (allocations aside). *)
Definition non_kernel_call (b : binding) : bool :=
  match snd b with
  | EReshape _ _ | EOpaque _ _ | EAllocStorage _ _ _ _ | EMemAllocTensor _ _ _ _
  | EKillTensor _ | EKillStorage _ => true
  | _ => false
  end.

(** Number of pool-release markers of token [t]. *)
Definition releases_of (t : nat) (bs : list binding) : nat :=
  List.length (filter (fun b => match snd b with
                                | EKillStorage (VStorage k) => k =? t
                                | _ => false
                                end) bs).

(** History kept by the Token Allocator: a token's first tenant is its
    earliest, its end is that of a tenant, and a token is only opened when
    every earlier token of its class is occupied at that point. *)
Record plan_hist (toks : list token) (asg : list (alloc_rec * nat)) : Prop := {
  ph_first : forall r t, In (r, t) asg -> tk_first (tok toks t) <= ar_def r;
  ph_last : forall t, t < List.length toks ->
    exists r, In (r, t) asg /\ tk_end (tok toks t) = ar_end r;
  ph_busy : forall t1 t2, t1 < t2 < List.length toks ->
    tk_class (tok toks t1) = tk_class (tok toks t2) ->
    exists r, In (r, t1) asg /\ ar_def r < tk_first (tok toks t2) <= ar_end r
}.

(** [b1] occurs before [b2] in [l]. *)
Definition before (b1 b2 : binding) (l : list binding) : Prop :=
  exists l1 l2, l = l1 ++ l2 /\ In b1 l1 /\ In b2 l2.

(** Bindings of the memory dialect (and the allocations they replace). *)
Definition is_memory_binding (b : binding) : bool :=
  match snd b with
  | EAllocTensor _ _ _ _ | EAllocStorage _ _ _ _ | EMemAllocTensor _ _ _ _
  | EKillTensor _ | EKillStorage _ => true
  | _ => false
  end.

(** Pool creations of token [t]. *)
Definition is_creation (t : nat) (b : binding) : bool :=
  match snd b with
  | EAllocStorage _ _ _ _ => match fst b with VStorage k => k =? t | V _ => false end
  | _ => false
  end.

Definition creations_of (t : nat) (l : list binding) : nat :=
  List.length (filter (is_creation t) l).

(** Whether the Rewriter opens the pool of token [t] at position [i]. *)
Definition creates (toks : list token) (asg : list (alloc_rec * nat)) (t i : nat) : bool :=
  match find_assign i asg with
  | Some (_, t') => (t' =? t) && (tk_first (nth t' toks default_token) =? i)
  | None => false
  end.

(** Bytes reserved by the pools of the tokens, and bytes the planned
    allocations would take one by one. *)
Definition total_cap (toks : list token) : Z :=
  fold_right (fun tk acc => (tk_cap tk + acc)%Z) 0%Z toks.

Definition total_size (rs : list alloc_rec) : Z :=
  fold_right (fun r acc => (ar_size r + acc)%Z) 0%Z rs.

Ltac in_asg H :=
  apply in_app_or in H; destruct H as [H | [H | []]]; [| inversion H; subst; clear H].

(** ** The repository's tests

    Transcription of test_transform_static_plan_block_memory.py.  The tests
    compare with [tvm.ir.assert_structural_equal], which identifies bound
    variables up to renaming; the expected functions below keep the input's
    variable names, call the new storage objects [VStorage k] and bind every
    marker to [_]. *)
Module Tests.

Local Open Scope Z_scope.

Definition tensor (s : list Z) (dt : dtype) : expr :=
  EAllocTensor (map DConst s) dt 0%nat "global".
Definition call (k : string) (ins outs : list var) : expr :=
  ECallKernel k (map AVar ins) (map AVar outs).
Definition mem_tensor (t : nat) (s : list Z) (dt : dtype) : expr :=
  EMemAllocTensor (VStorage t) 0 (map DConst s) dt.
Definition storage (t : nat) (size : Z) (dt : dtype) : binding :=
  (VStorage t, EAllocStorage size 0%nat "global" dt).
Definition kill_tensor (v : string) : binding := (unit_var, EKillTensor (V v)).
Definition kill_storage (t : nat) : binding := (unit_var, EKillStorage (VStorage t)).

(** test_basic *)
Definition basic_main : function := mkFunction [V "x"] [
  (V "alloc", tensor [2; 4] DFloat32);
  (V "_", call "exp" [V "x"] [V "alloc"]);
  (V "lv", ECopy (V "alloc"));
  (V "lv1", EReshape (V "lv") [DConst 8]);
  (V "alloc1", tensor [8] DFloat32);
  (V "_1", call "relu" [V "lv1"] [V "alloc1"]);
  (V "lv2", ECopy (V "alloc1"));
  (V "alloc2", tensor [8] DFloat32);
  (V "_2", ECallKernel "add" [AVar (V "lv2"); AConst] [AVar (V "alloc2")]);
  (V "lv3", ECopy (V "alloc2"));
  (V "alloc3", tensor [10] DFloat32);
  (V "_3", call "pad" [V "lv3"] [V "alloc3"]);
  (V "lv4", ECopy (V "alloc3"));
  (V "alloc4", tensor [10] DFloat32);
  (V "_4", call "log" [V "lv4"] [V "alloc4"]);
  (V "gv", ECopy (V "alloc4"))] (V "gv").

Definition basic_main_expected : function := mkFunction [V "x"] [
  storage 0 32 DFloat32;
  (V "alloc", mem_tensor 0 [2; 4] DFloat32);
  (V "_", call "exp" [V "x"] [V "alloc"]);
  (V "lv", ECopy (V "alloc"));
  (V "lv1", EReshape (V "lv") [DConst 8]);
  storage 1 40 DFloat32;
  (V "alloc1", mem_tensor 1 [8] DFloat32);
  (V "_1", call "relu" [V "lv1"] [V "alloc1"]);
  kill_tensor "alloc";
  kill_tensor "lv1";
  (V "lv2", ECopy (V "alloc1"));
  (V "alloc2", mem_tensor 0 [8] DFloat32);
  (V "_2", ECallKernel "add" [AVar (V "lv2"); AConst] [AVar (V "alloc2")]);
  kill_tensor "alloc1";
  (V "lv3", ECopy (V "alloc2"));
  (V "alloc3", mem_tensor 1 [10] DFloat32);
  (V "_3", call "pad" [V "lv3"] [V "alloc3"]);
  kill_tensor "alloc2";
  (V "lv4", ECopy (V "alloc3"));
  (V "alloc4", tensor [10] DFloat32);
  (V "_4", call "log" [V "lv4"] [V "alloc4"]);
  kill_tensor "alloc3";
  (V "gv", ECopy (V "alloc4"));
  kill_storage 0;
  kill_storage 1] (V "gv").

Definition prims (l : list string) : IRModule := map IPrimFunc l.

Definition basic_Module : IRModule :=
  prims ["add"; "reshape"; "relu"; "log"; "exp"; "pad"]%string
  ++ [IRelaxFunc "main" basic_main].
Definition basic_Expected : IRModule :=
  prims ["add"; "reshape"; "relu"; "log"; "exp"; "pad"]%string
  ++ [IRelaxFunc "main" basic_main_expected].

(** test_different_dtype *)
Definition dd_main : function := mkFunction [V "x"; V "y"] [
  (V "alloc", tensor [2; 3] DFloat32);
  (V "_", call "add" [V "x"; V "x"] [V "alloc"]);
  (V "gv", ECopy (V "alloc"));
  (V "alloc1", tensor [2; 3] DInt32);
  (V "_1", call "add1" [V "y"; V "y"] [V "alloc1"]);
  (V "gv1", ECopy (V "alloc1"))] (V "x").

Definition dd_main_expected : function := mkFunction [V "x"; V "y"] [
  storage 0 24 DFloat32;
  (V "alloc", mem_tensor 0 [2; 3] DFloat32);
  (V "_", call "add" [V "x"; V "x"] [V "alloc"]);
  kill_tensor "alloc";
  (V "gv", ECopy (V "alloc"));
  storage 1 24 DInt32;
  (V "alloc1", mem_tensor 1 [2; 3] DInt32);
  (V "_1", call "add1" [V "y"; V "y"] [V "alloc1"]);
  kill_tensor "alloc1";
  (V "gv1", ECopy (V "alloc1"));
  kill_storage 0;
  kill_storage 1] (V "x").

(** test_same_dtype *)
Definition sd_main : function := mkFunction [V "x"; V "y"] [
  (V "alloc", tensor [2; 3] DFloat32);
  (V "_", call "add" [V "x"; V "x"] [V "alloc"]);
  (V "gv", ECopy (V "alloc"));
  (V "alloc1", tensor [2; 3] DFloat32);
  (V "_1", call "add" [V "y"; V "y"] [V "alloc1"]);
  (V "gv1", ECopy (V "alloc1"))] (V "x").

Definition sd_main_expected : function := mkFunction [V "x"; V "y"] [
  storage 0 24 DFloat32;
  (V "alloc", mem_tensor 0 [2; 3] DFloat32);
  (V "_", call "add" [V "x"; V "x"] [V "alloc"]);
  kill_tensor "alloc";
  (V "gv", ECopy (V "alloc"));
  (V "alloc1", mem_tensor 0 [2; 3] DFloat32);
  (V "_1", call "add" [V "y"; V "y"] [V "alloc1"]);
  kill_tensor "alloc1";
  (V "gv1", ECopy (V "alloc1"));
  kill_storage 0] (V "x").

(** test_if_cond *)
Definition if_cond_main : function := mkFunction [V "x"] [
  (V "alloc", EAllocTensor [] DBool 0%nat "global");
  (V "_", call "all_less_than_zero" [V "x"] [V "alloc"]);
  (V "x1", ECopy (V "alloc"));
  (V "y", EIf (V "x1")
            [(V "y", ECopy (V "x"))]
            [(V "alloc1", tensor [2; 3] DFloat32);
             (V "_1", call "exp" [V "x"] [V "alloc1"]);
             (V "gv3", ECopy (V "alloc1"));
             (V "y", ECopy (V "gv3"))])] (V "x").

(** test_if_then_else *)
Definition if_then_else_main : function := mkFunction [V "cond"; V "x"] [
  (V "alloc", tensor [2; 3] DFloat32);
  (V "_", call "exp" [V "x"] [V "alloc"]);
  (V "y", ECopy (V "alloc"));
  (V "z", EIf (V "cond") [(V "z", ECopy (V "y"))] [(V "z", ECopy (V "y"))])] (V "x").

(** test_cross_block_use *)
Definition cross_block_main : function := mkFunction [V "cond"; V "x"] [
  (V "alloc", tensor [2; 3] DFloat32);
  (V "_", call "exp" [V "x"] [V "alloc"]);
  (V "y", ECopy (V "alloc"));
  (V "z", EIf (V "cond")
            [(V "alloc1", tensor [2; 3] DFloat32);
             (V "_1", call "exp" [V "y"] [V "alloc1"]);
             (V "y2", ECopy (V "alloc1"));
             (V "z", ECopy (V "y2"))]
            [(V "alloc2", tensor [2; 3] DFloat32);
             (V "_2", call "exp" [V "y"] [V "alloc2"]);
             (V "y2", ECopy (V "alloc2"));
             (V "z", ECopy (V "y2"))])] (V "x").

(** test_nested_tuple *)
Definition nested_tuple_main : function := mkFunction [V "x"] [
  (V "alloc", tensor [2; 3] DFloat32);
  (V "_", call "exp" [V "x"] [V "alloc"]);
  (V "y1", ECopy (V "alloc"));
  (V "alloc1", tensor [2; 3] DFloat32);
  (V "_1", call "exp" [V "x"] [V "alloc1"]);
  (V "y2", ECopy (V "alloc1"));
  (V "alloc2", tensor [2; 3] DFloat32);
  (V "_2", call "exp" [V "x"] [V "alloc2"]);
  (V "y3", ECopy (V "alloc2"));
  (V "t", ETuple [V "y1"; V "y2"]);
  (V "nt", ETuple [V "t"; V "y3"]);
  (V "nt0", EGetItem (V "nt") 0);
  (V "y1_", EGetItem (V "nt0") 0);
  (V "y2_", EGetItem (V "nt0") 1);
  (V "y3_", EGetItem (V "nt") 1);
  (V "alloc3", tensor [2; 3] DFloat32);
  (V "_3", call "exp" [V "y1_"] [V "alloc3"]);
  (V "z1", ECopy (V "alloc3"));
  (V "alloc4", tensor [2; 3] DFloat32);
  (V "_4", call "exp" [V "y2_"] [V "alloc4"]);
  (V "z2", ECopy (V "alloc4"));
  (V "alloc5", tensor [2; 3] DFloat32);
  (V "_5", call "exp" [V "y3_"] [V "alloc5"]);
  (V "z3", ECopy (V "alloc5"))] (V "x").

Definition nested_tuple_main_expected : function := mkFunction [V "x"] [
  storage 0 24 DFloat32;
  (V "alloc", mem_tensor 0 [2; 3] DFloat32);
  (V "_", call "exp" [V "x"] [V "alloc"]);
  (V "y1", ECopy (V "alloc"));
  storage 1 24 DFloat32;
  (V "alloc1", mem_tensor 1 [2; 3] DFloat32);
  (V "_1", call "exp" [V "x"] [V "alloc1"]);
  (V "y2", ECopy (V "alloc1"));
  storage 2 24 DFloat32;
  (V "alloc2", mem_tensor 2 [2; 3] DFloat32);
  (V "_2", call "exp" [V "x"] [V "alloc2"]);
  (V "y3", ECopy (V "alloc2"));
  (V "t", ETuple [V "y1"; V "y2"]);
  (V "nt", ETuple [V "t"; V "y3"]);
  (V "nt0", EGetItem (V "nt") 0);
  (V "y1_", EGetItem (V "nt0") 0);
  (V "y2_", EGetItem (V "nt0") 1);
  (V "y3_", EGetItem (V "nt") 1);
  storage 3 24 DFloat32;
  (V "alloc3", mem_tensor 3 [2; 3] DFloat32);
  (V "_3", call "exp" [V "y1_"] [V "alloc3"]);
  kill_tensor "alloc";
  kill_tensor "alloc3";
  (V "z1", ECopy (V "alloc3"));
  (V "alloc4", mem_tensor 0 [2; 3] DFloat32);
  (V "_4", call "exp" [V "y2_"] [V "alloc4"]);
  kill_tensor "alloc1";
  kill_tensor "alloc4";
  (V "z2", ECopy (V "alloc4"));
  (V "alloc5", mem_tensor 3 [2; 3] DFloat32);
  (V "_5", call "exp" [V "y3_"] [V "alloc5"]);
  kill_tensor "alloc2";
  kill_tensor "alloc5";
  (V "z3", ECopy (V "alloc5"));
  kill_storage 0;
  kill_storage 1;
  kill_storage 2;
  kill_storage 3] (V "x").

(** test_call_func_other_than_primfunc *)
Definition other_call_main : function := mkFunction [V "x"] [
  (V "alloc", tensor [2; 3] DFloat32);
  (V "_", EOpaque "relax.add" [AVar (V "x"); AVar (V "alloc")]);
  (V "y", ECopy (V "alloc"))] (V "x").

(** test_symbolic_shape *)
Definition symbolic_main : function := mkFunction [V "x"] [
  (V "alloc", EAllocTensor [DSym "m"; DSym "n"] DFloat32 0%nat "global");
  (V "_", call "exp" [V "x"] [V "alloc"]);
  (V "y", ECopy (V "alloc"))] (V "x").

(** test_zero_reference *)
Definition zero_ref_main : function := mkFunction [V "x"] [
  (V "alloc", tensor [2; 3] DFloat32)] (V "x").

Definition zero_ref_main_expected : function := mkFunction [V "x"] [
  storage 0 24 DFloat32;
  (V "alloc", mem_tensor 0 [2; 3] DFloat32);
  kill_storage 0] (V "x").

(** test_reshape_param *)
Definition reshape_param_main : function := mkFunction [V "x"; V "y"] [
  (V "lv", EReshape (V "x") (map DConst [2; 25; 2]));
  (V "lv1", EReshape (V "y") (map DConst [2; 25; 2]));
  (V "alloc", tensor [2; 25; 2] DFloat32);
  (V "_", call "add" [V "lv"; V "lv1"] [V "alloc"]);
  (V "gv", ECopy (V "alloc"))] (V "gv").

(** test_multiple_functions *)

End Tests.

(** The model reproduces the expected output of every test. *)
Module TestRuns.
Import Tests.

Example test_basic :
  StaticPlanBlockMemory_module basic_Module = basic_Expected.
Proof. vm_compute. reflexivity. Qed.

Example test_different_dtype :
  StaticPlanBlockMemory_module (prims ["add"; "add1"]%string ++ [IRelaxFunc "main" dd_main])
  = prims ["add"; "add1"]%string ++ [IRelaxFunc "main" dd_main_expected].
Proof. vm_compute. reflexivity. Qed.

Example test_same_dtype :
  StaticPlanBlockMemory sd_main = sd_main_expected.
Proof. vm_compute. reflexivity. Qed.

Example test_if_cond : StaticPlanBlockMemory if_cond_main = if_cond_main.
Proof. vm_compute. reflexivity. Qed.

Example test_if_then_else : StaticPlanBlockMemory if_then_else_main = if_then_else_main.
Proof. vm_compute. reflexivity. Qed.

Example test_cross_block_use : StaticPlanBlockMemory cross_block_main = cross_block_main.
Proof. vm_compute. reflexivity. Qed.

Example test_nested_tuple :
  StaticPlanBlockMemory nested_tuple_main = nested_tuple_main_expected.
Proof. vm_compute. reflexivity. Qed.

Example test_call_func_other_than_primfunc :
  StaticPlanBlockMemory other_call_main = other_call_main.
Proof. vm_compute. reflexivity. Qed.

Example test_symbolic_shape : StaticPlanBlockMemory symbolic_main = symbolic_main.
Proof. vm_compute. reflexivity. Qed.

Example test_zero_reference :
  StaticPlanBlockMemory zero_ref_main = zero_ref_main_expected.
Proof. vm_compute. reflexivity. Qed.

Example test_reshape_param :
  StaticPlanBlockMemory reshape_param_main = reshape_param_main.
Proof. vm_compute. reflexivity. Qed.

Example test_multiple_functions :
  StaticPlanBlockMemory_module
    (prims ["add"; "add1"]%string ++ [IRelaxFunc "func1" dd_main; IRelaxFunc "func2" sd_main])
  = prims ["add"; "add1"]%string
    ++ [IRelaxFunc "func1" dd_main_expected; IRelaxFunc "func2" sd_main_expected].
Proof. vm_compute. reflexivity. Qed.

End TestRuns.

(** ** Basic facts *)

Lemma var_eqb_spec (a b : var) : var_eqb a b = true <-> a = b.
Proof.
  destruct a as [x | i], b as [y | j]; simpl; split; intro H; try discriminate.
  - apply String.eqb_eq in H; subst; reflexivity.
  - inversion H; subst; apply String.eqb_refl.
  - apply Nat.eqb_eq in H; subst; reflexivity.
  - inversion H; subst; apply Nat.eqb_refl.
Qed.

Lemma dtype_eqb_spec (a b : dtype) : dtype_eqb a b = true <-> a = b.
Proof. destruct a, b; simpl; split; intro H; congruence. Qed.

Lemma sclass_eqb_spec (a b : sclass) : sclass_eqb a b = true <-> a = b.
Proof.
  destruct a as [[d1 v1] s1], b as [[d2 v2] s2]; unfold sclass_eqb.
  rewrite !andb_true_iff, dtype_eqb_spec, Nat.eqb_eq, String.eqb_eq.
  split; [intros [[-> ->] ->]; reflexivity | intro H; inversion H; auto].
Qed.

Lemma update_nth_length {A} (i : nat) (g : A -> A) (l : list A) :
  List.length (update_nth i g l) = List.length l.
Proof.
  revert i; induction l as [| x l IH]; intros [| i]; simpl; auto.
Qed.

Lemma nth_update_nth_eq {A} (i : nat) (g : A -> A) (l : list A) (d : A) :
  i < List.length l -> nth i (update_nth i g l) d = g (nth i l d).
Proof.
  revert i; induction l as [| x l IH]; intros [| i] Hi; simpl in *; try lia; auto.
  apply IH; lia.
Qed.

Lemma nth_update_nth_neq {A} (i j : nat) (g : A -> A) (l : list A) (d : A) :
  i <> j -> nth j (update_nth i g l) d = nth j l d.
Proof.
  revert i j; induction l as [| x l IH]; intros [| i] [| j] Hij; simpl; auto; try lia.
  all: apply IH; lia.
Qed.

Lemma enum_from_In {A} (k i : nat) (x : A) (l : list A) :
  In (i, x) (enum_from k l) -> k <= i /\ nth_error l (i - k) = Some x.
Proof.
  revert k; induction l as [| y l IH]; intros k H; simpl in H; [contradiction |].
  destruct H as [H | H].
  - inversion H; subst. rewrite Nat.sub_diag. split; auto.
  - apply IH in H as [H1 H2]. split; [lia |].
    replace (i - k) with (S (i - S k)) by lia. exact H2.
Qed.

Lemma pick_min_In (l : list (nat * token)) (a : nat * token) :
  pick_min l = Some a -> In a l.
Proof.
  unfold pick_min.
  assert (G : forall acc, fold_left (fun acc a =>
      match acc with
      | None => Some a
      | Some b => if free_before a b then Some a else Some b
      end) l acc = Some a -> acc = Some a \/ In a l).
  { induction l as [| y l IH]; intros acc H; simpl in H; [left; exact H |].
    apply IH in H as [H | H]; [| right; right; exact H].
    destruct acc as [b |].
    - destruct (free_before y b); inversion H; subst; [right; left; reflexivity | left; reflexivity].
    - inversion H; subst; right; left; reflexivity. }
  intro H; apply G in H as [H | H]; [discriminate | exact H].
Qed.

Lemma pick_spec (toks : list token) (c : sclass) (p i : nat) :
  pick toks c p = Some i ->
  i < List.length toks /\ tk_class (nth i toks default_token) = c
  /\ tk_end (nth i toks default_token) < p.
Proof.
  unfold pick. destruct (pick_min _) as [[j tk] |] eqn:E; simpl; intro H; inversion H; subst.
  apply pick_min_In, filter_In in E as [Hin Hf].
  apply enum_from_In in Hin as [_ Hn]. rewrite Nat.sub_0_r in Hn.
  simpl in Hf. apply andb_true_iff in Hf as [Hc He].
  apply sclass_eqb_spec in Hc. apply Nat.ltb_lt in He.
  pose proof (nth_error_Some toks i) as Hs. rewrite Hn in Hs.
  rewrite (nth_error_nth toks i default_token Hn).
  repeat split; auto. apply Hs; discriminate.
Qed.

(** Positions of [annotate] are increasing and index the body. *)
Lemma annotate_In (q : nat) (e : env) (bs : list binding) (a : nat * env * binding) :
  In a (annotate q e bs) -> q <= ann_pos a /\ nth_error bs (ann_pos a - q) = Some (snd a).
Proof.
  revert q e; induction bs as [| [x ex] bs IH]; intros q e H; simpl in H; [contradiction |].
  destruct H as [H | H].
  - subst; unfold ann_pos; simpl. rewrite Nat.sub_diag. auto.
  - apply IH in H as [H1 H2]. split; [lia |].
    replace (ann_pos a - q) with (S (ann_pos a - S q)) by lia. exact H2.
Qed.

Lemma annotate_complete (q : nat) (e : env) (bs : list binding) (i : nat) (b : binding) :
  nth_error bs i = Some b -> exists e', In (q + i, e', b) (annotate q e bs).
Proof.
  revert q e i; induction bs as [| [x ex] bs IH]; intros q e i H; [destruct i; discriminate |].
  destruct i as [| i]; simpl in H.
  - inversion H; subst. exists e. simpl. left. rewrite Nat.add_0_r. reflexivity.
  - apply (IH (S q) ((x, binding_msg e x ex) :: e)) in H as [e' H].
    exists e'. simpl. right. replace (q + S i) with (S q + i) by lia. exact H.
Qed.

Lemma annotate_sorted (q : nat) (e : env) (bs : list binding) :
  StronglySorted (fun a b => ann_pos a < ann_pos b) (annotate q e bs).
Proof.
  revert q e; induction bs as [| [x ex] bs IH]; intros q e; simpl; constructor; auto.
  apply Forall_forall. intros a Ha. apply annotate_In in Ha as [Ha _].
  unfold ann_pos at 1; simpl. lia.
Qed.

Lemma last_use_from_after (x : var) (d q : nat) (us : list (list var)) (acc : option nat) (p : nat) :
  (forall p', acc = Some p' -> d < p') ->
  last_use_from x d q us acc = Some p -> d < p.
Proof.
  revert q acc; induction us as [| u us IH]; intros q acc Hacc H; simpl in H.
  - apply Hacc, H.
  - eapply IH; [| exact H]. intros p' Hp'.
    destruct ((d <? q) && existsb (var_eqb x) u) eqn:E.
    + inversion Hp'; subst. apply andb_true_iff in E as [E _]. apply Nat.ltb_lt, E.
    + apply Hacc, Hp'.
Qed.

Lemma record_of_spec ann us rets a r :
  In r (record_of ann us rets a) ->
  ar_def r = ann_pos a
  /\ snd a = (ar_var r, EAllocTensor (ar_shape r) (ar_dtype r) (ar_dev r) (ar_scope r))
  /\ existsb (var_eqb (ar_var r)) rets = false
  /\ tensor_bytes (ar_shape r) (ar_dtype r) = Some (ar_size r)
  /\ ar_last r = last_use (ar_var r) (ann_pos a) us
  /\ ar_views r = views_of ann (ar_var r) (ar_last r).
Proof.
  unfold record_of. destruct a as [[q e] [x ex]]; simpl.
  destruct ex; try contradiction.
  destruct (existsb (var_eqb x) rets) eqn:Er; [contradiction |].
  destruct (tensor_bytes shape dt) eqn:Et; [| contradiction].
  intros [H | []]; subst; simpl. repeat split; auto.
Qed.

Lemma record_of_length ann us rets a : List.length (record_of ann us rets a) <= 1.
Proof.
  unfold record_of. destruct (snd a) as [x []]; simpl; try lia.
  destruct (existsb _ _); simpl; [lia |]. destruct (tensor_bytes _ _); simpl; lia.
Qed.

Lemma ar_def_le_end ann us rets a r :
  In r (record_of ann us rets a) -> ar_def r <= ar_end r.
Proof.
  intro H. apply record_of_spec in H as (Hd & _ & _ & _ & Hl & _).
  unfold ar_end. destruct (ar_last r) as [p |] eqn:E; [| lia].
  unfold last_use in Hl. symmetry in Hl.
  apply last_use_from_after in Hl; [lia | discriminate].
Qed.

Lemma records_sorted ann us rets l :
  StronglySorted (fun a b => ann_pos a < ann_pos b) l ->
  StronglySorted (fun r1 r2 => ar_def r1 < ar_def r2) (flat_map (record_of ann us rets) l).
Proof.
  induction 1 as [| a l Hs IH Hf]; simpl; [constructor |].
  pose proof (record_of_length ann us rets a) as Hlen.
  destruct (record_of ann us rets a) as [| r [| r' rs]] eqn:E; simpl in *; [exact IH | | lia].
  constructor; [exact IH |].
  apply Forall_forall. intros r2 Hr2.
  apply in_flat_map in Hr2 as [a2 [Ha2 Hr2]].
  apply record_of_spec in Hr2 as [Hd2 _].
  assert (Hr : In r (record_of ann us rets a)) by (rewrite E; left; reflexivity).
  apply record_of_spec in Hr as [Hd _].
  rewrite Forall_forall in Hf. specialize (Hf a2 Ha2). lia.
Qed.

Lemma alloc_records_sorted (f : function) :
  StronglySorted (fun r1 r2 => ar_def r1 < ar_def r2) (alloc_records f).
Proof. apply records_sorted, annotate_sorted. Qed.

Lemma alloc_records_def_le_end (f : function) :
  Forall (fun r => ar_def r <= ar_end r) (alloc_records f).
Proof.
  apply Forall_forall. intros r Hr. unfold alloc_records in Hr.
  apply in_flat_map in Hr as [a [_ Hr]]. eapply ar_def_le_end; exact Hr.
Qed.

(** ** Invariant of the Token Allocator *)

Lemma alloc_inv_nil : alloc_inv [] [] 0.
Proof. constructor; simpl; intros; try contradiction; lia. Qed.

Lemma alloc_inv_mono toks asg d d' :
  alloc_inv toks asg d -> d <= d' -> alloc_inv toks asg d'.
Proof.
  intros [H1 H2 H3 H4 H5] Hd. constructor; auto.
  intros r t Hin. destruct (H1 r t Hin) as (? & ? & ? & ? & ?). repeat split; auto; lia.
Qed.

Lemma tok_app_old toks nt t : t < List.length toks -> tok (toks ++ [nt]) t = tok toks t.
Proof. intro H. unfold tok. apply app_nth1, H. Qed.

Lemma tok_app_new toks nt : tok (toks ++ [nt]) (List.length toks) = nt.
Proof. unfold tok. rewrite app_nth2, Nat.sub_diag by lia. reflexivity. Qed.

Lemma assign_one_inv toks asg r :
  alloc_inv toks asg (ar_def r) -> ar_def r <= ar_end r ->
  alloc_inv (fst (assign_one (toks, asg) r)) (snd (assign_one (toks, asg) r)) (S (ar_def r)).
Proof.
  intros [H1 H2 H3 H4 H5] Hde. unfold assign_one.
  destruct (pick toks (ar_class r) (ar_def r)) as [i |] eqn:Hp; simpl.
  - apply pick_spec in Hp as (Hi & Hc & He). fold (tok toks i) in Hc, He.
    set (g := fun tk => mkToken (tk_class tk) (Z.max (tk_cap tk) (ar_size r))
                                (ar_end r) (ar_def r) (tk_first tk)).
    assert (Ueq : tok (update_nth i g toks) i = g (tok toks i))
      by (apply nth_update_nth_eq; exact Hi).
    assert (Uneq : forall t, t <> i -> tok (update_nth i g toks) t = tok toks t)
      by (intros t Ht; apply nth_update_nth_neq; lia).
    constructor; rewrite ?update_nth_length.
    + intros r0 t Hin. in_asg Hin.
      * destruct (H1 r0 t Hin) as (Ht & Hd & Hcl & Hs & Hend).
        destruct (Nat.eq_dec t i) as [-> | Hne].
        -- rewrite Ueq; simpl. repeat split; auto; lia.
        -- rewrite Uneq by exact Hne. repeat split; auto; lia.
      * rewrite Ueq; simpl. repeat split; auto; lia.
    + intros t Ht. destruct (Nat.eq_dec t i) as [-> | Hne].
      * rewrite Ueq; simpl.
        destruct (Z.max_spec (tk_cap (tok toks i)) (ar_size r)) as [[_ Hm] | [_ Hm]];
          rewrite Hm.
        -- exists r. split; [apply in_or_app; right; left; reflexivity | reflexivity].
        -- destruct (H2 i Hi) as [r0 [Hin Hs]]. exists r0. split; [apply in_or_app; left |]; auto.
      * rewrite Uneq by exact Hne. destruct (H2 t Ht) as [r0 [Hin Hs]].
        exists r0. split; [apply in_or_app; left |]; auto.
    + intros t Ht. destruct (H3 t Ht) as [r0 [Hin Hf]]. exists r0.
      split; [apply in_or_app; left; exact Hin |].
      destruct (Nat.eq_dec t i) as [-> | Hne]; [rewrite Ueq | rewrite Uneq by exact Hne]; auto.
    + intros r1 r2 t Hin1 Hin2 Hlt. in_asg Hin1; in_asg Hin2.
      * eapply H4; eauto.
      * destruct (H1 r1 _ Hin1) as (_ & _ & _ & _ & Hend). lia.
      * destruct (H1 r2 _ Hin2) as (_ & Hd & _). lia.
      * lia.
    + intros r1 t1 r2 t2 Hin1 Hin2 Hd. in_asg Hin1; in_asg Hin2.
      * eapply H5; eauto.
      * destruct (H1 r1 t1 Hin1) as (_ & Hd1 & _). lia.
      * destruct (H1 r2 t2 Hin2) as (_ & Hd2 & _). lia.
      * auto.
  - set (nt := mkToken (ar_class r) (ar_size r) (ar_end r) (ar_def r) (ar_def r)).
    assert (Hlen : List.length (toks ++ [nt]) = S (List.length toks))
      by (rewrite length_app; simpl; lia).
    constructor; rewrite ?Hlen.
    + intros r0 t Hin. in_asg Hin.
      * destruct (H1 r0 t Hin) as (Ht & Hd & Hcl & Hs & Hend).
        rewrite tok_app_old by exact Ht. repeat split; auto; lia.
      * rewrite tok_app_new; simpl. repeat split; auto; lia.
    + intros t Ht. destruct (Nat.eq_dec t (List.length toks)) as [-> | Hne].
      * rewrite tok_app_new. exists r. split; [apply in_or_app; right; left |]; reflexivity.
      * rewrite tok_app_old by lia. destruct (H2 t ltac:(lia)) as [r0 [Hin Hs]].
        exists r0. split; [apply in_or_app; left |]; auto.
    + intros t Ht. destruct (Nat.eq_dec t (List.length toks)) as [-> | Hne].
      * rewrite tok_app_new. exists r. split; [apply in_or_app; right; left |]; reflexivity.
      * rewrite tok_app_old by lia. destruct (H3 t ltac:(lia)) as [r0 [Hin Hs]].
        exists r0. split; [apply in_or_app; left |]; auto.
    + intros r1 r2 t Hin1 Hin2 Hlt. in_asg Hin1; in_asg Hin2.
      * eapply H4; eauto.
      * destruct (H1 r1 _ Hin1) as (Ht & _). lia.
      * destruct (H1 r2 _ Hin2) as (_ & Hd & _). lia.
      * lia.
    + intros r1 t1 r2 t2 Hin1 Hin2 Hd. in_asg Hin1; in_asg Hin2.
      * eapply H5; eauto.
      * destruct (H1 r1 t1 Hin1) as (_ & Hd1 & _). lia.
      * destruct (H1 r2 t2 Hin2) as (_ & Hd2 & _). lia.
      * auto.
Qed.

Lemma plan_fold_inv rs toks asg d :
  StronglySorted (fun a b => ar_def a < ar_def b) rs ->
  Forall (fun r => ar_def r <= ar_end r) rs ->
  Forall (fun r => d <= ar_def r) rs ->
  alloc_inv toks asg d ->
  exists d', alloc_inv (fst (fold_left assign_one rs (toks, asg)))
                       (snd (fold_left assign_one rs (toks, asg))) d'.
Proof.
  revert toks asg d; induction rs as [| r rs IH]; intros toks asg d Hs Hde Hd Hinv.
  - exists d; exact Hinv.
  - cbn [fold_left]. inversion Hs as [| ? ? Hs' Hf]; subst. inversion Hde; subst.
    inversion Hd; subst.
    pose proof (assign_one_inv toks asg r) as Hstep.
    destruct (assign_one (toks, asg) r) as [toks' asg'] eqn:E; cbn [fst snd] in Hstep.
    apply IH with (d := S (ar_def r)); [exact Hs' | exact H2 | |].
    + eapply Forall_impl; [| exact Hf]. simpl; intros; lia.
    + apply Hstep; auto. eapply alloc_inv_mono; eauto.
Qed.

Lemma plan_fold_records rs st :
  map fst (snd (fold_left assign_one rs st)) = map fst (snd st) ++ rs.
Proof.
  revert st; induction rs as [| r rs IH]; intros [toks asg]; cbn [fold_left].
  - rewrite app_nil_r; reflexivity.
  - rewrite IH. unfold assign_one. destruct (pick _ _ _); simpl;
      rewrite map_app, <- app_assoc; reflexivity.
Qed.

Lemma plan_inv (f : function) : exists d, alloc_inv (fst (plan f)) (snd (plan f)) d.
Proof.
  unfold plan, plan_tokens. eapply plan_fold_inv with (d := 0).
  - apply alloc_records_sorted.
  - apply alloc_records_def_le_end.
  - apply Forall_forall; intros; lia.
  - apply alloc_inv_nil.
Qed.

Lemma plan_records (f : function) : map fst (snd (plan f)) = alloc_records f.
Proof. unfold plan, plan_tokens. rewrite plan_fold_records. reflexivity. Qed.

(** ** Allocation records and the function body *)

Lemma record_in_body (f : function) (r : alloc_rec) :
  In r (alloc_records f) ->
  nth_error (body f) (ar_def r)
    = Some (ar_var r, EAllocTensor (ar_shape r) (ar_dtype r) (ar_dev r) (ar_scope r))
  /\ ~ In (ar_var r) (returned f)
  /\ (forall v, In v (ar_views r) ->
        exists p src sh, nth_error (body f) p = Some (v, EReshape src sh)).
Proof.
  unfold alloc_records. intro H. apply in_flat_map in H as [a [Ha Hr]].
  apply record_of_spec in Hr as (Hd & Hb & Hret & _ & _ & Hv).
  pose proof (annotate_In 0 [] (body f) a Ha) as [_ Hn]. rewrite Nat.sub_0_r in Hn.
  split; [rewrite Hd, Hn, Hb; reflexivity |]. split.
  - intro Hin. assert (E : existsb (var_eqb (ar_var r)) (returned f) = true).
    { apply existsb_exists. exists (ar_var r). split; [exact Hin | apply var_eqb_spec; reflexivity]. }
    congruence.
  - intros v Hvin. rewrite Hv in Hvin. unfold views_of in Hvin.
    destruct (ar_last r) as [q |]; [| contradiction].
    apply in_flat_map in Hvin as [a' [Ha' Hv']].
    destruct a' as [[p e'] [w ex]]; simpl in Hv'.
    destruct ex; try contradiction.
    destruct (_ && _); [| contradiction]. destruct Hv' as [<- | []].
    apply annotate_In in Ha' as [_ Hn']. rewrite Nat.sub_0_r in Hn'.
    exists p, src, shape. exact Hn'.
Qed.

Lemma record_complete (f : function) q y sh dt dev sc sz :
  nth_error (body f) q = Some (y, EAllocTensor sh dt dev sc) ->
  ~ In y (returned f) -> tensor_bytes sh dt = Some sz ->
  exists r, In r (alloc_records f) /\ ar_def r = q /\ ar_var r = y
            /\ ar_shape r = sh /\ ar_dtype r = dt.
Proof.
  intros Hn Hret Hsz. apply (annotate_complete 0 []) in Hn as [e Ha]. simpl in Ha.
  set (ann := annotate 0 [] (body f)) in *.
  assert (Er : existsb (var_eqb y) (returned f) = false).
  { destruct (existsb _ _) eqn:E; [| reflexivity].
    apply existsb_exists in E as [w [Hw Heq]]. apply var_eqb_spec in Heq; subst. contradiction. }
  eexists. split.
  - unfold alloc_records. apply in_flat_map. exists (q, e, (y, EAllocTensor sh dt dev sc)).
    split; [exact Ha |]. unfold record_of; simpl. rewrite Er, Hsz. left. reflexivity.
  - simpl. auto.
Qed.

Lemma plannable_binding (f : function) i b :
  plannable f = true -> nth_error (body f) i = Some b -> binding_recognized b = true.
Proof.
  intros Hp Hn. unfold plannable in Hp. rewrite forallb_forall in Hp.
  apply Hp. eapply nth_error_In; eauto.
Qed.

Lemma nodup_binding_pos (l : list binding) i j x e1 e2 :
  NoDup (map fst l) -> nth_error l i = Some (x, e1) -> nth_error l j = Some (x, e2) -> i = j.
Proof.
  intros Hnd Hi Hj. rewrite NoDup_nth_error in Hnd.
  assert (Hlt : i < List.length l) by (apply nth_error_Some; rewrite Hi; discriminate).
  apply Hnd.
  - rewrite length_map. exact Hlt.
  - rewrite (map_nth_error fst i l Hi), (map_nth_error fst j l Hj). reflexivity.
Qed.

Lemma asg_record (f : function) r t :
  In (r, t) (snd (plan f)) -> In r (alloc_records f).
Proof.
  intro H. rewrite <- plan_records. apply in_map_iff. exists (r, t). auto.
Qed.

Lemma record_asg (f : function) r :
  In r (alloc_records f) -> exists t, In (r, t) (snd (plan f)).
Proof.
  rewrite <- plan_records. intro H. apply in_map_iff in H as [[r' t] [Heq H]].
  simpl in Heq; subst. exists t. exact H.
Qed.

(** ** The Rewriter *)

Lemma find_assign_some q asg r t :
  find_assign q asg = Some (r, t) -> In (r, t) asg /\ ar_def r = q.
Proof.
  induction asg as [| [r' t'] asg IH]; simpl; [discriminate |].
  destruct (ar_def r' =? q) eqn:E.
  - intro H; inversion H; subst. apply Nat.eqb_eq in E. auto.
  - intro H. apply IH in H as [H1 H2]. auto.
Qed.

Lemma find_assign_none q asg :
  find_assign q asg = None -> forall r t, In (r, t) asg -> ar_def r <> q.
Proof.
  induction asg as [| [r' t'] asg IH]; simpl; [intros _ r t [] |].
  destruct (ar_def r' =? q) eqn:E; [discriminate |].
  intros H r t [Heq | Hin].
  - inversion Heq; subst. apply Nat.eqb_neq, E.
  - eapply IH; eauto.
Qed.

Lemma find_assign_in toks asg d r t :
  alloc_inv toks asg d -> In (r, t) asg -> find_assign (ar_def r) asg = Some (r, t).
Proof.
  intros Hinv Hin. destruct (find_assign (ar_def r) asg) as [[r' t'] |] eqn:E.
  - apply find_assign_some in E as [Hin' Hd].
    destruct (ai_func _ _ _ Hinv r' t' r t Hin' Hin Hd) as [-> ->]. reflexivity.
  - exfalso. eapply find_assign_none; eauto.
Qed.

Lemma rewrite_body_In toks asg q bs b' :
  In b' (rewrite_body toks asg q bs) <->
  exists i b, nth_error bs i = Some b /\ In b' (rewrite_binding toks asg (q + i) b).
Proof.
  revert q; induction bs as [| b bs IH]; intro q; simpl.
  - split; [contradiction | intros (i & b & H & _); destruct i; discriminate].
  - rewrite in_app_iff, IH. split.
    + intros [H | (i & b0 & Hn & Hin)].
      * exists 0, b. rewrite Nat.add_0_r. auto.
      * exists (S i), b0. rewrite <- Nat.add_succ_comm. auto.
    + intros (i & b0 & Hn & Hin). destruct i as [| i].
      * left. simpl in Hn. inversion Hn; subst. rewrite Nat.add_0_r in Hin. exact Hin.
      * right. exists i, b0. rewrite Nat.add_succ_comm. auto.
Qed.

Lemma rewrite_body_no_plan toks q bs : rewrite_body toks [] q bs = bs.
Proof.
  revert q; induction bs as [| b bs IH]; intro q; simpl; [reflexivity |].
  rewrite IH. reflexivity.
Qed.

Lemma kill_tensors_at_In asg q b' :
  In b' (kill_tensors_at asg q) ->
  exists r t v, In (r, t) asg /\ ar_last r = Some q /\ In v (ar_var r :: ar_views r)
                /\ b' = (unit_var, EKillTensor v).
Proof.
  unfold kill_tensors_at. intro H. apply in_flat_map in H as [[r t] [Hin Hb]].
  cbn [fst snd] in Hb.
  unfold last_is in Hb. destruct (ar_last r) as [p |] eqn:El; [| contradiction].
  destruct (p =? q) eqn:Epq; [| contradiction]. apply Nat.eqb_eq in Epq; subst.
  apply in_map_iff in Hb as [v [<- Hv]]. exists r, t, v. auto.
Qed.

Lemma kill_storages_In n b' :
  In b' (kill_storages n) <-> exists t, t < n /\ b' = (unit_var, EKillStorage (VStorage t)).
Proof.
  unfold kill_storages. rewrite in_map_iff. split.
  - intros [t [<- Ht]]. apply in_seq in Ht. exists t. split; [lia | reflexivity].
  - intros [t [Ht ->]]. exists t. split; [reflexivity | apply in_seq; lia].
Qed.

Lemma SPBM_planned (f : function) :
  plannable f = true ->
  StaticPlanBlockMemory f =
  mkFunction (params f)
    (rewrite_body (fst (plan f)) (snd (plan f)) 0 (body f) ++ kill_storages (List.length (fst (plan f))))
    (ret f).
Proof.
  intro Hp. unfold StaticPlanBlockMemory. rewrite Hp. destruct (plan f). reflexivity.
Qed.

(** ** The rewritten body *)

Lemma pre_cases (f : function) b' :
  In b' (rewrite_body (fst (plan f)) (snd (plan f)) 0 (body f)) ->
  (exists i, nth_error (body f) i = Some b' /\ find_assign i (snd (plan f)) = None)
  \/ (exists r t, In (r, t) (snd (plan f)) /\ t < List.length (fst (plan f)) /\
        (b' = (VStorage t, alloc_storage_of (tok (fst (plan f)) t))
         \/ b' = (ar_var r, EMemAllocTensor (VStorage t) 0 (ar_shape r) (ar_dtype r))))
  \/ (exists r t v, In (r, t) (snd (plan f)) /\ ar_last r <> None
        /\ In v (ar_var r :: ar_views r) /\ b' = (unit_var, EKillTensor v)).
Proof.
  intro Hin. destruct (plan_inv f) as [d Hinv].
  apply rewrite_body_In in Hin as (i & b & Hn & Hb). change (0 + i) with i in Hb.
  unfold rewrite_binding in Hb. apply in_app_or in Hb as [Hb | Hb].
  2:{ right; right. apply kill_tensors_at_In in Hb as (r & t & v & H1 & H2 & H3 & H4).
      exists r, t, v. rewrite H2. repeat split; [exact H1 | discriminate | exact H3 | exact H4]. }
  destruct (find_assign i (snd (plan f))) as [[r t] |] eqn:Ef.
  - apply find_assign_some in Ef as [Hrt Hd].
    destruct (ai_tenant _ _ _ Hinv r t Hrt) as [Ht _].
    right; left. exists r, t. split; [exact Hrt |]. split; [exact Ht |].
    apply in_app_or in Hb as [Hb | Hb].
    + destruct (_ =? i); [| contradiction]. destruct Hb as [<- | []]. left. reflexivity.
    + destruct Hb as [<- | []]. right.
      destruct (record_in_body f r (asg_record f r t Hrt)) as [Hn' _].
      rewrite Hd, Hn in Hn'. inversion Hn'; subst. reflexivity.
  - left. exists i. destruct Hb as [<- | []]. auto.
Qed.

Lemma output_cases (f : function) b' :
  plannable f = true -> In b' (body (StaticPlanBlockMemory f)) ->
  In b' (rewrite_body (fst (plan f)) (snd (plan f)) 0 (body f))
  \/ (exists t, t < List.length (fst (plan f)) /\ b' = (unit_var, EKillStorage (VStorage t))).
Proof.
  intros Hp Hin. rewrite SPBM_planned in Hin by exact Hp. cbn [body] in Hin.
  apply in_app_or in Hin as [H | H]; [left; exact H | right; apply kill_storages_In; exact H].
Qed.

Lemma materialize_in_pre (f : function) r t :
  In (r, t) (snd (plan f)) ->
  In (ar_var r, EMemAllocTensor (VStorage t) 0 (ar_shape r) (ar_dtype r))
     (rewrite_body (fst (plan f)) (snd (plan f)) 0 (body f)).
Proof.
  intro Hrt. destruct (plan_inv f) as [d Hinv].
  destruct (record_in_body f r (asg_record f r t Hrt)) as [Hn _].
  apply rewrite_body_In. exists (ar_def r), (ar_var r, EAllocTensor (ar_shape r) (ar_dtype r) (ar_dev r) (ar_scope r)).
  split; [exact Hn |]. change (0 + ar_def r) with (ar_def r).
  unfold rewrite_binding. rewrite (find_assign_in _ _ _ r t Hinv Hrt).
  apply in_or_app. left. apply in_or_app. right. left. reflexivity.
Qed.

Lemma storage_in_pre (f : function) t :
  t < List.length (fst (plan f)) ->
  In (VStorage t, alloc_storage_of (tok (fst (plan f)) t))
     (rewrite_body (fst (plan f)) (snd (plan f)) 0 (body f)).
Proof.
  intro Ht. destruct (plan_inv f) as [d Hinv].
  destruct (ai_first _ _ _ Hinv t Ht) as [r [Hrt Hfirst]].
  destruct (record_in_body f r (asg_record f r t Hrt)) as [Hn _].
  apply rewrite_body_In. exists (ar_def r), (ar_var r, EAllocTensor (ar_shape r) (ar_dtype r) (ar_dev r) (ar_scope r)).
  split; [exact Hn |]. change (0 + ar_def r) with (ar_def r).
  unfold rewrite_binding. rewrite (find_assign_in _ _ _ r t Hinv Hrt).
  apply in_or_app. left. apply in_or_app. left.
  unfold tok in Hfirst. rewrite <- Hfirst, Nat.eqb_refl. left. reflexivity.
Qed.

Lemma pre_no_kill_storage (f : function) v x :
  plannable f = true ->
  ~ In (v, EKillStorage x) (rewrite_body (fst (plan f)) (snd (plan f)) 0 (body f)).
Proof.
  intros Hp Hin. apply pre_cases in Hin as [(i & Hn & _) | [(r & t & _ & _ & [H | H]) | (r & t & w & _ & _ & _ & H)]].
  - apply (plannable_binding f i _ Hp) in Hn. discriminate.
  - unfold alloc_storage_of in H. destruct (tk_class _) as [[? ?] ?]. discriminate.
  - discriminate.
  - discriminate.
Qed.

Lemma releases_of_app t l1 l2 : releases_of t (l1 ++ l2) = releases_of t l1 + releases_of t l2.
Proof. unfold releases_of. rewrite filter_app, length_app. reflexivity. Qed.

Lemma releases_of_kill_storages t n :
  releases_of t (kill_storages n) = if t <? n then 1 else 0.
Proof.
  induction n as [| n IH]; [reflexivity |].
  unfold kill_storages. rewrite seq_S, map_app. fold (kill_storages n).
  rewrite releases_of_app, IH. unfold releases_of at 1. cbn -[Nat.ltb].
  destruct (Nat.ltb_spec t n), (Nat.eqb_spec n t), (Nat.ltb_spec t (S n)); simpl; lia.
Qed.

Lemma releases_of_none t l :
  (forall v x, ~ In (v, EKillStorage x) l) -> releases_of t l = 0.
Proof.
  induction l as [| [v e] l IH]; intro H; [reflexivity |].
  unfold releases_of in *. simpl.
  assert (IH' : List.length (filter (fun b => match snd b with
                                   | EKillStorage (VStorage k) => k =? t
                                   | _ => false end) l) = 0).
  { apply IH. intros w x Hin. apply (H w x). right. exact Hin. }
  destruct e; try exact IH'.
  exfalso. apply (H v v0). left. reflexivity.
Qed.

Lemma output_storage (f : function) v sz dev sc dt :
  plannable f = true ->
  In (v, EAllocStorage sz dev sc dt) (body (StaticPlanBlockMemory f)) ->
  exists t, v = VStorage t /\ t < List.length (fst (plan f))
            /\ sz = tk_cap (tok (fst (plan f)) t).
Proof.
  intros Hp Hin. apply output_cases in Hin as [Hin | (t & _ & H)]; [| discriminate | exact Hp].
  apply pre_cases in Hin
    as [(i & Hn & _) | [(r & t & _ & Ht & [H | H]) | (r & t & w & _ & _ & _ & H)]].
  - apply (plannable_binding f i _ Hp) in Hn. discriminate.
  - unfold alloc_storage_of in H. destruct (tk_class _) as [[dt' dev'] sc'].
    inversion H; subst. exists t. auto.
  - discriminate.
  - discriminate.
Qed.

Lemma output_kill_tensor (f : function) w x :
  plannable f = true ->
  In (w, EKillTensor x) (body (StaticPlanBlockMemory f)) ->
  exists r t, In (r, t) (snd (plan f)) /\ ar_last r <> None /\ In x (ar_var r :: ar_views r).
Proof.
  intros Hp Hin. apply output_cases in Hin as [Hin | (t & _ & H)]; [| discriminate | exact Hp].
  apply pre_cases in Hin
    as [(i & Hn & _) | [(r & t & _ & Ht & [H | H]) | (r & t & v & H1 & H2 & H3 & H)]].
  - apply (plannable_binding f i _ Hp) in Hn. discriminate.
  - unfold alloc_storage_of in H. destruct (tk_class _) as [[? ?] ?]. discriminate.
  - discriminate.
  - inversion H; subst. exists r, t. auto.
Qed.

Lemma alloc_not_view (f : function) q x sh dt dev sc r :
  NoDup (map fst (body f)) ->
  nth_error (body f) q = Some (x, EAllocTensor sh dt dev sc) ->
  In r (alloc_records f) -> ~ In x (ar_views r).
Proof.
  intros Hnd Hq Hr Hv. destruct (record_in_body f r Hr) as (_ & _ & Hviews).
  destruct (Hviews x Hv) as (p & src & sh' & Hp).
  pose proof (nodup_binding_pos _ _ _ _ _ _ Hnd Hq Hp) as <-.
  rewrite Hq in Hp. discriminate.
Qed.


Lemma SPBM_blocked (f : function) : plannable f = false -> StaticPlanBlockMemory f = f.
Proof. intro H. unfold StaticPlanBlockMemory. rewrite H. reflexivity. Qed.

Lemma plan_no_tokens (f : function) : fst (plan f) = [] -> snd (plan f) = [].
Proof.
  intro H. destruct (plan_inv f) as [d Hinv].
  destruct (snd (plan f)) as [| [r t] l] eqn:E; [reflexivity | exfalso].
  destruct (ai_tenant _ _ _ Hinv r t (or_introl eq_refl)) as [Ht _]. rewrite H in Ht. simpl in Ht. lia.
Qed.

Lemma SPBM_fixed_or_blocked (f : function) :
  StaticPlanBlockMemory f = f \/ plannable (StaticPlanBlockMemory f) = false.
Proof.
  destruct (plannable f) eqn:Hp; [| left; apply SPBM_blocked, Hp].
  destruct (fst (plan f)) as [| tk toks] eqn:Et.
  - left. rewrite SPBM_planned by exact Hp. rewrite (plan_no_tokens f Et), Et.
    rewrite rewrite_body_no_plan, app_nil_r. destruct f; reflexivity.
  - right. destruct (plannable (StaticPlanBlockMemory f)) eqn:E; [exfalso | reflexivity].
    unfold plannable in E. rewrite forallb_forall in E.
    assert (Hin : In (unit_var, EKillStorage (VStorage 0)) (body (StaticPlanBlockMemory f))).
    { rewrite SPBM_planned by exact Hp. cbn [body]. apply in_or_app. right.
      apply kill_storages_In. exists 0. rewrite Et. split; [simpl; lia | reflexivity]. }
    specialize (E _ Hin). discriminate.
Qed.

Lemma SPBM_idempotent_function (f : function) :
  StaticPlanBlockMemory (StaticPlanBlockMemory f) = StaticPlanBlockMemory f.
Proof.
  destruct (SPBM_fixed_or_blocked f) as [H | H].
  - rewrite H. exact H.
  - apply SPBM_blocked, H.
Qed.

(** ** Properties of the pass *)

(** Modelled from the spec: C1 (amended).  For every function containing a branch binding, an
    allocation with a symbolic dimension, or a call to an opaque operator
    (neither a prim-func kernel nor a reshape view), the pass returns the
    function unchanged. *)
Theorem SPBM_gate_unchanged (f : function) :
  existsb blocks_planning (body f) = true -> StaticPlanBlockMemory f = f.
Proof.
  intro H. apply SPBM_blocked. unfold plannable.
  apply existsb_exists in H as [[x e] [Hb Hbl]].
  destruct (forallb binding_recognized (body f)) eqn:E; [| reflexivity].
  rewrite forallb_forall in E. specialize (E (x, e) Hb).
  unfold blocks_planning, binding_recognized in *; simpl in *.
  destruct e; try discriminate. rewrite E in Hbl. discriminate.
Qed.

Lemma SPBM_gate_unchanged_witness :
  existsb blocks_planning (body Tests.if_cond_main) = true
  /\ StaticPlanBlockMemory Tests.if_cond_main = Tests.if_cond_main.
Proof.
  split; [vm_compute; reflexivity |].
  apply SPBM_gate_unchanged. vm_compute. reflexivity.
Defined.

(** Modelled from the spec: C1 (counterexample).  The function of [test_basic] contains a call that
    is not a prim-func kernel ([R.reshape]), yet the pass rewrites it. *)
Lemma SPBM_reshape_call_planned :
  ~ (forall f, existsb (fun b => blocks_planning b || non_kernel_call b) (body f) = true ->
               StaticPlanBlockMemory f = f).
Proof.
  intro H.
  assert (Hne : StaticPlanBlockMemory Tests.basic_main <> Tests.basic_main)
    by (vm_compute; discriminate).
  apply Hne, H. vm_compute. reflexivity.
Qed.

(** Modelled from the spec: C2.  Two distinct tenants of the same token have disjoint live ranges
    [[ar_def, ar_end]]: one ends strictly before the other is defined. *)
Theorem same_token_ranges_disjoint (f : function) :
  forall r1 r2 t, In (r1, t) (snd (plan f)) -> In (r2, t) (snd (plan f)) -> r1 <> r2 ->
  ar_end r1 < ar_def r2 \/ ar_end r2 < ar_def r1.
Proof.
  intros r1 r2 t H1 H2 Hne. destruct (plan_inv f) as [d Hinv].
  destruct (Nat.lt_trichotomy (ar_def r1) (ar_def r2)) as [Hlt | [Heq | Hgt]].
  - left. exact (ai_disjoint _ _ _ Hinv r1 r2 t H1 H2 Hlt).
  - exfalso. apply Hne. exact (proj1 (ai_func _ _ _ Hinv r1 t r2 t H1 H2 Heq)).
  - right. exact (ai_disjoint _ _ _ Hinv r2 r1 t H2 H1 Hgt).
Qed.

Lemma same_token_ranges_disjoint_witness :
  exists r1 r2 t, In (r1, t) (snd (plan Tests.basic_main))
  /\ In (r2, t) (snd (plan Tests.basic_main)) /\ r1 <> r2
  /\ (ar_end r1 < ar_def r2 \/ ar_end r2 < ar_def r1).
Proof.
  exists (asg_rec Tests.basic_main 0), (asg_rec Tests.basic_main 2), 0.
  assert (H1 : In (asg_rec Tests.basic_main 0, 0) (snd (plan Tests.basic_main)))
    by (vm_compute; left; reflexivity).
  assert (H2 : In (asg_rec Tests.basic_main 2, 0) (snd (plan Tests.basic_main)))
    by (vm_compute; right; right; left; reflexivity).
  assert (Hne : asg_rec Tests.basic_main 0 <> asg_rec Tests.basic_main 2)
    by (vm_compute; discriminate).
  split; [exact H1 | split; [exact H2 | split; [exact Hne |]]].
  exact (same_token_ranges_disjoint Tests.basic_main _ _ 0 H1 H2 Hne).
Defined.

(** Modelled from the spec: C3.  On [test_basic] (allocations of 32, 32, 32, 40 and 40 bytes of one
    dtype) the pass yields the expected function, with two tokens of final
    capacities 32 and 40; [alloc2] reuses token 0 and [alloc3] token 1; the
    last uses are the single consumers, right after which the tensors are
    released in the expected output. *)
Theorem basic_two_tokens :
  flat_map (fun b => match snd b with
                     | EAllocTensor sh dt _ _ => [tensor_bytes sh dt]
                     | _ => [] end) (body Tests.basic_main)
    = [Some 32; Some 32; Some 32; Some 40; Some 40]%Z
  /\ StaticPlanBlockMemory Tests.basic_main = Tests.basic_main_expected
  /\ map tk_cap (fst (plan Tests.basic_main)) = [32; 40]%Z
  /\ map (fun a => (ar_var (fst a), snd a)) (snd (plan Tests.basic_main))
       = [(V "alloc", 0); (V "alloc1", 1); (V "alloc2", 0); (V "alloc3", 1)]
  /\ map (fun a => ar_last (fst a)) (snd (plan Tests.basic_main))
       = [Some 5; Some 8; Some 11; Some 14].
Proof. vm_compute. repeat split. Qed.

(** Modelled from the spec: C4.  Tenants of differing storage class (element type, device, scope)
    never share a token; in particular equal byte size with different
    element types gives distinct tokens. *)
Theorem token_class_purity (f : function) :
  forall r1 r2 t1 t2, In (r1, t1) (snd (plan f)) -> In (r2, t2) (snd (plan f)) ->
  (ar_class r1 <> ar_class r2 -> t1 <> t2)
  /\ (ar_size r1 = ar_size r2 -> ar_dtype r1 <> ar_dtype r2 -> t1 <> t2).
Proof.
  intros r1 r2 t1 t2 H1 H2. destruct (plan_inv f) as [d Hinv].
  destruct (ai_tenant _ _ _ Hinv r1 t1 H1) as (_ & _ & Hc1 & _).
  destruct (ai_tenant _ _ _ Hinv r2 t2 H2) as (_ & _ & Hc2 & _).
  assert (Hcl : t1 = t2 -> ar_class r1 = ar_class r2) by (intros ->; congruence).
  split.
  - intros Hne Heq. exact (Hne (Hcl Heq)).
  - intros _ Hdt Heq. apply Hdt. apply Hcl in Heq. unfold ar_class in Heq.
    inversion Heq. reflexivity.
Qed.

Lemma token_class_purity_witness :
  exists r1 r2 t1 t2, In (r1, t1) (snd (plan Tests.dd_main))
  /\ In (r2, t2) (snd (plan Tests.dd_main))
  /\ ar_size r1 = ar_size r2 /\ ar_dtype r1 <> ar_dtype r2 /\ t1 <> t2.
Proof.
  exists (asg_rec Tests.dd_main 0), (asg_rec Tests.dd_main 1), 0, 1.
  assert (H1 : In (asg_rec Tests.dd_main 0, 0) (snd (plan Tests.dd_main)))
    by (vm_compute; left; reflexivity).
  assert (H2 : In (asg_rec Tests.dd_main 1, 1) (snd (plan Tests.dd_main)))
    by (vm_compute; right; left; reflexivity).
  assert (Hs : ar_size (asg_rec Tests.dd_main 0) = ar_size (asg_rec Tests.dd_main 1))
    by (vm_compute; reflexivity).
  assert (Hd : ar_dtype (asg_rec Tests.dd_main 0) <> ar_dtype (asg_rec Tests.dd_main 1))
    by (vm_compute; discriminate).
  split; [exact H1 | split; [exact H2 | split; [exact Hs | split; [exact Hd |]]]].
  exact (proj2 (token_class_purity Tests.dd_main _ _ 0 1 H1 H2) Hs Hd).
Defined.

(** Modelled from the spec: C9.  Running the pass twice over a module gives the result of running
    it once. *)
Theorem StaticPlanBlockMemory_idempotent (m : IRModule) :
  StaticPlanBlockMemory_module (StaticPlanBlockMemory_module m)
  = StaticPlanBlockMemory_module m.
Proof.
  unfold StaticPlanBlockMemory_module. rewrite map_map. apply map_ext.
  intros [n | n f]; [reflexivity |]. rewrite SPBM_idempotent_function. reflexivity.
Qed.

(** Modelled from the spec: C5.  Every token's final capacity is the maximum byte size of its
    tenants: each tenant fits and one tenant reaches it.  Every emitted
    pool creation carries the final capacity of its token, and each token
    has one. *)
Theorem token_capacity_is_max (f : function) :
  plannable f = true ->
  (forall t, t < List.length (fst (plan f)) ->
     (forall r, In (r, t) (snd (plan f)) -> (ar_size r <= tk_cap (tok (fst (plan f)) t))%Z)
     /\ (exists r, In (r, t) (snd (plan f)) /\ ar_size r = tk_cap (tok (fst (plan f)) t))
     /\ In (VStorage t, alloc_storage_of (tok (fst (plan f)) t))
           (body (StaticPlanBlockMemory f)))
  /\ (forall r t, In (r, t) (snd (plan f)) -> t < List.length (fst (plan f)))
  /\ (forall v sz dev sc dt,
        In (v, EAllocStorage sz dev sc dt) (body (StaticPlanBlockMemory f)) ->
        exists t, v = VStorage t /\ t < List.length (fst (plan f))
                  /\ sz = tk_cap (tok (fst (plan f)) t)).
Proof.
  intro Hp. destruct (plan_inv f) as [d Hinv]. split; [| split].
  - intros t Ht. split; [| split].
    + intros r Hr. apply (ai_tenant _ _ _ Hinv r t Hr).
    + exact (ai_cap _ _ _ Hinv t Ht).
    + rewrite SPBM_planned by exact Hp. cbn [body]. apply in_or_app. left.
      apply storage_in_pre. exact Ht.
  - intros r t Hr. apply (ai_tenant _ _ _ Hinv r t Hr).
  - intros v sz dev sc dt Hin. exact (output_storage f v sz dev sc dt Hp Hin).
Qed.

Lemma token_capacity_is_max_witness :
  plannable Tests.basic_main = true
  /\ (forall v sz dev sc dt,
        In (v, EAllocStorage sz dev sc dt) (body (StaticPlanBlockMemory Tests.basic_main)) ->
        exists t, v = VStorage t /\ t < List.length (fst (plan Tests.basic_main))
                  /\ sz = tk_cap (tok (fst (plan Tests.basic_main)) t)).
Proof.
  assert (Hp : plannable Tests.basic_main = true) by (vm_compute; reflexivity).
  destruct (token_capacity_is_max Tests.basic_main Hp) as (_ & _ & H3).
  split; [exact Hp | exact H3].
Defined.




(** Modelled from the spec: C7.  The rewritten body is the rewritten bindings followed by one
    pool-release marker per token: the rewritten bindings hold no
    pool-release marker and every tensor-release marker, each token has
    exactly one pool release (other indices none), every variable bound by
    the input, the return value's included, is bound before the pool
    releases, and the returned variable is kept. *)
Theorem storage_release_at_end (f : function) :
  plannable f = true ->
  body (StaticPlanBlockMemory f)
    = rewrite_body (fst (plan f)) (snd (plan f)) 0 (body f)
      ++ kill_storages (List.length (fst (plan f)))
  /\ ret (StaticPlanBlockMemory f) = ret f
  /\ (forall v x, ~ In (v, EKillStorage x) (rewrite_body (fst (plan f)) (snd (plan f)) 0 (body f)))
  /\ (forall w v, In (w, EKillTensor v) (body (StaticPlanBlockMemory f)) ->
        In (w, EKillTensor v) (rewrite_body (fst (plan f)) (snd (plan f)) 0 (body f)))
  /\ (forall t, releases_of t (body (StaticPlanBlockMemory f))
                = if t <? List.length (fst (plan f)) then 1 else 0)
  /\ (forall x, In x (map fst (body f)) ->
        In x (map fst (rewrite_body (fst (plan f)) (snd (plan f)) 0 (body f)))).
Proof.
  intro Hp. pose proof (SPBM_planned f Hp) as Hs.
  assert (Hpre := pre_no_kill_storage f).
  split; [rewrite Hs; reflexivity |]. split; [rewrite Hs; reflexivity |].
  split; [intros v x; exact (Hpre v x Hp) |]. split; [| split].
  - intros w v Hin. rewrite Hs in Hin. cbn [body] in Hin.
    apply in_app_or in Hin as [Hin | Hin]; [exact Hin |].
    apply kill_storages_In in Hin as (t & _ & H). discriminate.
  - intro t. rewrite Hs. cbn [body]. rewrite releases_of_app, releases_of_kill_storages.
    rewrite releases_of_none; [reflexivity |]. intros v x. exact (Hpre v x Hp).
  - intros x Hx. apply in_map_iff in Hx as [b [<- Hb]].
    apply In_nth_error in Hb as [i Hi].
    apply in_map_iff.
    destruct (find_assign i (snd (plan f))) as [[r t] |] eqn:Ef.
    + exists (fst b, EMemAllocTensor (VStorage t) 0 (ar_shape r) (ar_dtype r)).
      split; [reflexivity |]. apply rewrite_body_In. exists i, b. split; [exact Hi |].
      change (0 + i) with i. unfold rewrite_binding. rewrite Ef.
      apply in_or_app. left. apply in_or_app. right. left. reflexivity.
    + exists b. split; [reflexivity |]. apply rewrite_body_In. exists i, b. split; [exact Hi |].
      change (0 + i) with i. unfold rewrite_binding. rewrite Ef. left. reflexivity.
Qed.

Lemma storage_release_at_end_witness :
  plannable Tests.basic_main = true
  /\ (forall t, releases_of t (body (StaticPlanBlockMemory Tests.basic_main))
                = if t <? List.length (fst (plan Tests.basic_main)) then 1 else 0).
Proof.
  assert (Hp : plannable Tests.basic_main = true) by (vm_compute; reflexivity).
  destruct (storage_release_at_end Tests.basic_main Hp) as (_ & _ & _ & _ & H5 & _).
  split; [exact Hp | exact H5].
Defined.

(** Modelled from the spec: C10.  In a plannable function with distinct binders, an allocation
    that reaches the return value keeps its binding unchanged, gets no
    token and no tensor-release marker, while every other allocation of
    constant shape is planned and materialized from its token. *)
Theorem returned_alloc_unplanned (f : function) q x sh dt dev sc :
  plannable f = true -> NoDup (map fst (body f)) ->
  nth_error (body f) q = Some (x, EAllocTensor sh dt dev sc) -> In x (returned f) ->
  In (x, EAllocTensor sh dt dev sc) (body (StaticPlanBlockMemory f))
  /\ (forall r t, In (r, t) (snd (plan f)) -> ar_var r <> x)
  /\ (forall v, ~ In (v, EKillTensor x) (body (StaticPlanBlockMemory f)))
  /\ (forall q' y sh' dt' dev' sc' sz,
        nth_error (body f) q' = Some (y, EAllocTensor sh' dt' dev' sc') ->
        ~ In y (returned f) -> tensor_bytes sh' dt' = Some sz ->
        exists r t, In (r, t) (snd (plan f)) /\ ar_var r = y
          /\ In (y, EMemAllocTensor (VStorage t) 0 sh' dt') (body (StaticPlanBlockMemory f))).
Proof.
  intros Hp Hnd Hq Hret.
  assert (Hnot : forall r t, In (r, t) (snd (plan f)) -> ar_var r <> x).
  { intros r t Hrt Hv. destruct (record_in_body f r (asg_record f r t Hrt)) as (_ & Hn & _).
    rewrite Hv in Hn. contradiction. }
  split; [| split; [exact Hnot | split]].
  - rewrite SPBM_planned by exact Hp. cbn [body]. apply in_or_app. left.
    apply rewrite_body_In. exists q, (x, EAllocTensor sh dt dev sc). split; [exact Hq |].
    change (0 + q) with q. unfold rewrite_binding.
    destruct (find_assign q (snd (plan f))) as [[r t] |] eqn:Ef; [exfalso | left; reflexivity].
    apply find_assign_some in Ef as [Hrt Hd].
    destruct (record_in_body f r (asg_record f r t Hrt)) as (Hn & _).
    rewrite Hd, Hq in Hn. inversion Hn. exact (Hnot r t Hrt (eq_sym H0)).
  - intros v Hin. apply output_kill_tensor in Hin as (r & t & Hrt & _ & [Hv | Hv]); [| | exact Hp].
    + exact (Hnot r t Hrt Hv).
    + exact (alloc_not_view f _ _ _ _ _ _ r Hnd Hq (asg_record f r t Hrt) Hv).
  - intros q' y sh' dt' dev' sc' sz Hq' Hy Hsz.
    destruct (record_complete f q' y sh' dt' dev' sc' sz Hq' Hy Hsz) as (r & Hr & _ & Hv & Hsh & Hdt).
    destruct (record_asg f r Hr) as [t Hrt]. exists r, t. split; [exact Hrt | split; [exact Hv |]].
    rewrite SPBM_planned by exact Hp. cbn [body]. apply in_or_app. left.
    rewrite <- Hv, <- Hsh, <- Hdt. apply materialize_in_pre. exact Hrt.
Qed.

Lemma returned_alloc_unplanned_witness :
  nth_error (body Tests.basic_main) 13
    = Some (V "alloc4", EAllocTensor [DConst 10] DFloat32 0 "global")
  /\ In (V "alloc4") (returned Tests.basic_main)
  /\ In (V "alloc4", EAllocTensor [DConst 10] DFloat32 0 "global")
        (body (StaticPlanBlockMemory Tests.basic_main)).
Proof.
  assert (Hp : plannable Tests.basic_main = true) by (vm_compute; reflexivity).
  assert (Hnd : NoDup (map fst (body Tests.basic_main))).
  { cbn [body Tests.basic_main map fst].
    repeat constructor; intro H; repeat (destruct H as [H | H]; [discriminate H |]); exact H. }
  assert (Hq : nth_error (body Tests.basic_main) 13
               = Some (V "alloc4", EAllocTensor [DConst 10] DFloat32 0 "global"))
    by reflexivity.
  assert (Hr : In (V "alloc4") (returned Tests.basic_main)) by (vm_compute; left; reflexivity).
  destruct (returned_alloc_unplanned Tests.basic_main 13 _ _ _ _ _ Hp Hnd Hq Hr) as (H1 & _).
  split; [exact Hq | split; [exact Hr | exact H1]].
Defined.

(** ** History of the Token Allocator *)

Lemma pick_min_none (l : list (nat * token)) : pick_min l = None -> l = [].
Proof.
  unfold pick_min. destruct l as [| a l]; [reflexivity |]. simpl.
  assert (G : forall l' b, fold_left (fun acc a =>
      match acc with
      | None => Some a
      | Some b => if free_before a b then Some a else Some b
      end) l' (Some b) <> None).
  { induction l' as [| y l' IH]; intros b; simpl; [discriminate |].
    destruct (free_before y b); apply IH. }
  intro H. exfalso. exact (G l a H).
Qed.

Lemma enum_from_complete {A} (k i : nat) (x : A) (l : list A) :
  nth_error l i = Some x -> In (k + i, x) (enum_from k l).
Proof.
  revert k i; induction l as [| y l IH]; intros k i H; [destruct i; discriminate |].
  destruct i as [| i]; simpl in H.
  - inversion H; subst. left. f_equal. lia.
  - right. replace (k + S i) with (S k + i) by lia. apply IH, H.
Qed.

Lemma pick_none (toks : list token) (c : sclass) (p : nat) :
  pick toks c p = None ->
  forall i, i < List.length toks -> tk_class (tok toks i) = c -> p <= tk_end (tok toks i).
Proof.
  unfold pick. destruct (pick_min _) eqn:E; [discriminate | intros _].
  apply pick_min_none in E. intros i Hi Hc.
  destruct (Nat.le_gt_cases p (tk_end (tok toks i))) as [Hle | Hlt]; [exact Hle | exfalso].
  assert (Hin : In (i, tok toks i)
                  (filter (fun a => sclass_eqb (tk_class (snd a)) c && (tk_end (snd a) <? p))
                          (enum_from 0 toks))).
  { apply filter_In. split.
    - apply (enum_from_complete 0 i). unfold tok. apply nth_error_nth'. exact Hi.
    - simpl. rewrite Hc. apply andb_true_iff. split; [apply sclass_eqb_spec; reflexivity |].
      apply Nat.ltb_lt. exact Hlt. }
  rewrite E in Hin. contradiction.
Qed.

Lemma plan_hist_nil : plan_hist [] [].
Proof. constructor; simpl; intros; try contradiction; lia. Qed.

Lemma assign_one_hist toks asg r :
  alloc_inv toks asg (ar_def r) -> plan_hist toks asg ->
  plan_hist (fst (assign_one (toks, asg) r)) (snd (assign_one (toks, asg) r)).
Proof.
  intros Hinv [P1 P2 P3]. unfold assign_one.
  destruct (pick toks (ar_class r) (ar_def r)) as [i |] eqn:Hp; simpl.
  - apply pick_spec in Hp as (Hi & Hc & He). fold (tok toks i) in Hc, He.
    set (g := fun tk => mkToken (tk_class tk) (Z.max (tk_cap tk) (ar_size r))
                                (ar_end r) (ar_def r) (tk_first tk)).
    assert (Ueq : tok (update_nth i g toks) i = g (tok toks i))
      by (apply nth_update_nth_eq; exact Hi).
    assert (Uneq : forall t, t <> i -> tok (update_nth i g toks) t = tok toks t)
      by (intros t Ht; apply nth_update_nth_neq; lia).
    assert (Ucl : forall t, tk_class (tok (update_nth i g toks) t) = tk_class (tok toks t)).
    { intro t. destruct (Nat.eq_dec t i) as [-> | Hne];
        [rewrite Ueq; reflexivity | rewrite Uneq by exact Hne; reflexivity]. }
    assert (Ufirst : forall t, tk_first (tok (update_nth i g toks) t) = tk_first (tok toks t)).
    { intro t. destruct (Nat.eq_dec t i) as [-> | Hne];
        [rewrite Ueq; reflexivity | rewrite Uneq by exact Hne; reflexivity]. }
    constructor; rewrite ?update_nth_length.
    + intros r0 t Hin. rewrite Ufirst.
      apply in_app_or in Hin as [Hin | [Heq | []]]; [apply P1, Hin |].
      injection Heq as <- <-.
      destruct (ai_first _ _ _ Hinv i Hi) as [r1 [Hr1 Hf]].
      destruct (ai_tenant _ _ _ Hinv r1 i Hr1) as (_ & Hd & _). lia.
    + intros t Ht. destruct (Nat.eq_dec t i) as [-> | Hne].
      * rewrite Ueq. exists r. split; [apply in_or_app; right; left; reflexivity | reflexivity].
      * rewrite Uneq by exact Hne. destruct (P2 t Ht) as [r0 [H0 He0]].
        exists r0. split; [apply in_or_app; left; exact H0 | exact He0].
    + intros t1 t2 Ht Hcl. rewrite !Ucl in Hcl. rewrite Ufirst.
      destruct (P3 t1 t2 Ht Hcl) as [r0 [H0 Hb]].
      exists r0. split; [apply in_or_app; left; exact H0 | exact Hb].
  - pose proof (pick_none _ _ _ Hp) as Hbusy.
    set (nt := mkToken (ar_class r) (ar_size r) (ar_end r) (ar_def r) (ar_def r)).
    assert (Hlen : List.length (toks ++ [nt]) = S (List.length toks))
      by (rewrite length_app; simpl; lia).
    constructor; rewrite ?Hlen.
    + intros r0 t Hin. apply in_app_or in Hin as [Hin | [Heq | []]].
      * destruct (ai_tenant _ _ _ Hinv r0 t Hin) as [Ht _].
        rewrite tok_app_old by exact Ht. apply P1, Hin.
      * injection Heq as <- <-. rewrite tok_app_new. simpl. lia.
    + intros t Ht. destruct (Nat.eq_dec t (List.length toks)) as [-> | Hne].
      * rewrite tok_app_new. exists r. split; [apply in_or_app; right; left |]; reflexivity.
      * rewrite tok_app_old by lia. destruct (P2 t ltac:(lia)) as [r0 [H0 He0]].
        exists r0. split; [apply in_or_app; left; exact H0 | exact He0].
    + intros t1 t2 Ht Hcl. rewrite (tok_app_old toks nt t1) in * by lia.
      destruct (Nat.eq_dec t2 (List.length toks)) as [-> | Hne].
      * rewrite tok_app_new in *. simpl in Hcl |- *.
        pose proof (Hbusy t1 ltac:(lia) Hcl) as Hb.
        destruct (P2 t1 ltac:(lia)) as [r0 [H0 He0]].
        destruct (ai_tenant _ _ _ Hinv r0 t1 H0) as (_ & Hd0 & _).
        exists r0. split; [apply in_or_app; left; exact H0 | lia].
      * rewrite (tok_app_old toks nt t2) in * by lia.
        destruct (P3 t1 t2 ltac:(lia) Hcl) as [r0 [H0 Hb]].
        exists r0. split; [apply in_or_app; left; exact H0 | exact Hb].
Qed.

Lemma plan_fold_hist rs toks asg d :
  StronglySorted (fun a b => ar_def a < ar_def b) rs ->
  Forall (fun r => ar_def r <= ar_end r) rs ->
  Forall (fun r => d <= ar_def r) rs ->
  alloc_inv toks asg d -> plan_hist toks asg ->
  plan_hist (fst (fold_left assign_one rs (toks, asg))) (snd (fold_left assign_one rs (toks, asg))).
Proof.
  revert toks asg d; induction rs as [| r rs IH]; intros toks asg d Hs Hde Hd Hinv Hh.
  - exact Hh.
  - cbn [fold_left]. inversion Hs as [| ? ? Hs' Hf]; subst. inversion Hde; subst.
    inversion Hd; subst.
    assert (Hinv' : alloc_inv toks asg (ar_def r)) by (eapply alloc_inv_mono; eauto).
    pose proof (assign_one_inv toks asg r Hinv' H1) as Hstep.
    pose proof (assign_one_hist toks asg r Hinv' Hh) as Hhist.
    destruct (assign_one (toks, asg) r) as [toks' asg'] eqn:E; cbn [fst snd] in Hstep, Hhist.
    apply IH with (d := S (ar_def r)); [exact Hs' | exact H2 | | exact Hstep | exact Hhist].
    eapply Forall_impl; [| exact Hf]. simpl; intros; lia.
Qed.

Lemma plan_hist_f (f : function) : plan_hist (fst (plan f)) (snd (plan f)).
Proof.
  unfold plan, plan_tokens. eapply plan_fold_hist with (d := 0).
  - apply alloc_records_sorted.
  - apply alloc_records_def_le_end.
  - apply Forall_forall; intros; lia.
  - apply alloc_inv_nil.
  - apply plan_hist_nil.
Qed.

(** ** Order of the rewritten bindings *)

Lemma rewrite_body_app toks asg q l1 l2 :
  rewrite_body toks asg q (l1 ++ l2)
  = rewrite_body toks asg q l1 ++ rewrite_body toks asg (q + List.length l1) l2.
Proof.
  revert q; induction l1 as [| b l1 IH]; intro q; simpl; [rewrite Nat.add_0_r; reflexivity |].
  rewrite IH, app_assoc. replace (S q + List.length l1) with (q + S (List.length l1)) by lia.
  reflexivity.
Qed.

Lemma before_segments toks asg q bs i j bi bj b1 b2 :
  i < j -> nth_error bs i = Some bi -> nth_error bs j = Some bj ->
  In b1 (rewrite_binding toks asg (q + i) bi) -> In b2 (rewrite_binding toks asg (q + j) bj) ->
  before b1 b2 (rewrite_body toks asg q bs).
Proof.
  intros Hij Hi Hj H1 H2. apply nth_error_split in Hj as (l1 & l2 & -> & Hlen).
  rewrite rewrite_body_app.
  exists (rewrite_body toks asg q l1), (rewrite_body toks asg (q + List.length l1) (bj :: l2)).
  split; [reflexivity | split].
  - apply rewrite_body_In. exists i, bi.
    rewrite nth_error_app1 in Hi by lia. split; [exact Hi | exact H1].
  - simpl. apply in_or_app. left. rewrite Hlen. exact H2.
Qed.

Lemma before_segment toks asg q bs j bj b1 b2 :
  nth_error bs j = Some bj -> before b1 b2 (rewrite_binding toks asg (q + j) bj) ->
  before b1 b2 (rewrite_body toks asg q bs).
Proof.
  intros Hj (s1 & s2 & Hs & H1 & H2). apply nth_error_split in Hj as (l1 & l2 & -> & Hlen).
  rewrite rewrite_body_app. simpl. rewrite Hlen, Hs.
  exists (rewrite_body toks asg q l1 ++ s1), (s2 ++ rewrite_body toks asg (S (q + j)) l2).
  split; [rewrite <- !app_assoc; reflexivity | split; apply in_or_app; auto].
Qed.

Lemma before_app_l b1 b2 l m : before b1 b2 l -> before b1 b2 (l ++ m).
Proof.
  intros (l1 & l2 & -> & H1 & H2). exists l1, (l2 ++ m).
  split; [rewrite app_assoc; reflexivity | split; [exact H1 | apply in_or_app; left; exact H2]].
Qed.

Lemma before_cross b1 b2 l m : In b1 l -> In b2 m -> before b1 b2 (l ++ m).
Proof. intros H1 H2. exists l, m. auto. Qed.

Lemma alloc_binding_at (f : function) r t :
  In (r, t) (snd (plan f)) ->
  nth_error (body f) (ar_def r)
  = Some (ar_var r, EAllocTensor (ar_shape r) (ar_dtype r) (ar_dev r) (ar_scope r)).
Proof. intro H. exact (proj1 (record_in_body f r (asg_record f r t H))). Qed.

(** The segment of a planned allocation: pool creation (for the token's
    first tenant), then materialization, then the releases at that position. *)
Lemma segment_planned (f : function) r t :
  In (r, t) (snd (plan f)) ->
  rewrite_binding (fst (plan f)) (snd (plan f)) (ar_def r)
    (ar_var r, EAllocTensor (ar_shape r) (ar_dtype r) (ar_dev r) (ar_scope r))
  = ((if tk_first (tok (fst (plan f)) t) =? ar_def r
      then [(VStorage t, alloc_storage_of (tok (fst (plan f)) t))] else [])
     ++ [(ar_var r, EMemAllocTensor (VStorage t) 0 (ar_shape r) (ar_dtype r))])
    ++ kill_tensors_at (snd (plan f)) (ar_def r).
Proof.
  intro H. destruct (plan_inv f) as [d Hinv].
  unfold rewrite_binding. rewrite (find_assign_in _ _ _ r t Hinv H). reflexivity.
Qed.

Lemma segment_unplanned toks asg q b :
  find_assign q asg = None -> rewrite_binding toks asg q b = [b] ++ kill_tensors_at asg q.
Proof. intro H. unfold rewrite_binding. rewrite H. reflexivity. Qed.

Lemma kill_in_segment toks asg r t q v b :
  In (r, t) asg -> ar_last r = Some q -> In v (ar_var r :: ar_views r) ->
  In (unit_var, EKillTensor v) (rewrite_binding toks asg q b).
Proof.
  intros Hrt Hl Hv. unfold rewrite_binding. apply in_or_app. right.
  unfold kill_tensors_at. apply in_flat_map. exists (r, t). split; [exact Hrt |].
  cbn [fst]. unfold last_is. rewrite Hl, Nat.eqb_refl.
  apply in_map_iff. exists v. auto.
Qed.

(** ** Last uses *)

Lemma last_use_from_found x d q0 us acc p :
  last_use_from x d q0 us acc = Some p ->
  acc = Some p
  \/ (exists u, q0 <= p /\ nth_error us (p - q0) = Some u /\ existsb (var_eqb x) u = true).
Proof.
  revert q0 acc; induction us as [| u us IH]; intros q0 acc H; simpl in H; [left; exact H |].
  apply IH in H as [H | (u' & Hle & Hn & He)].
  - destruct ((d <? q0) && existsb (var_eqb x) u) eqn:E; [| left; exact H].
    inversion H; subst. right. exists u. rewrite Nat.sub_diag.
    apply andb_true_iff in E as [_ E]. auto.
  - right. exists u'. split; [lia |]. replace (p - q0) with (S (p - S q0)) by lia. auto.
Qed.

Lemma annotate_nth (q : nat) (e : env) (bs : list binding) i a :
  nth_error (annotate q e bs) i = Some a -> ann_pos a = q + i /\ nth_error bs i = Some (snd a).
Proof.
  revert q e i; induction bs as [| [x ex] bs IH]; intros q e i H; [destruct i; discriminate |].
  destruct i as [| i]; simpl in H.
  - inversion H; subst. unfold ann_pos; simpl. auto.
  - apply IH in H as [H1 H2]. split; [lia | exact H2].
Qed.

(** The binding at a last use reads the tensor: it is a kernel call or a
    tuple. *)
Lemma record_last_use (f : function) r q :
  In r (alloc_records f) -> ar_last r = Some q ->
  ar_def r < q /\ exists bq e, nth_error (body f) q = Some bq /\ In (ar_var r) (binding_uses e (snd bq)).
Proof.
  intros Hr Hl. unfold alloc_records in Hr. apply in_flat_map in Hr as [a [Ha Hra]].
  pose proof (ar_def_le_end _ _ _ _ _ Hra) as Hle.
  apply record_of_spec in Hra as (Hd & _ & _ & _ & Hlu & _).
  rewrite Hl in Hlu. unfold last_use in Hlu. symmetry in Hlu.
  assert (Hlt : ann_pos a < q)
    by (eapply last_use_from_after; [| exact Hlu]; intros ? Hc; discriminate Hc).
  apply last_use_from_found in Hlu as [H | (u & _ & Hn & He)]; [discriminate |].
  rewrite Nat.sub_0_r in Hn. unfold uses_list in Hn. rewrite nth_error_map in Hn.
  destruct (@nth_error (nat * env * (var * expr)) (annotate 0 [] (body f)) q) as [a' |] eqn:Ea; [| discriminate Hn].
  simpl in Hn. inversion Hn; subst u.
  apply annotate_nth in Ea as Ea'. destruct Ea' as [_ Hb].
  split; [rewrite Hd; exact Hlt |]. exists (snd a'), (snd (fst a')). split; [exact Hb |].
  apply existsb_exists in He as [w [Hw Hx]].
  apply var_eqb_spec in Hx. subst w. exact Hw.
Qed.

(** ** Bindings kept and pools created *)

Lemma filter_length_none {A} (p : A -> bool) (l : list A) :
  (forall x, In x l -> p x = false) -> List.length (filter p l) = 0.
Proof.
  induction l as [| x l IH]; intro H; simpl; [reflexivity |].
  rewrite (H x (or_introl eq_refl)). apply IH. intros y Hy. apply H. right. exact Hy.
Qed.

Lemma filter_nil_none {A} (p : A -> bool) (l : list A) :
  (forall x, In x l -> p x = false) -> filter p l = [].
Proof.
  intro H. apply length_zero_iff_nil. apply filter_length_none. exact H.
Qed.

Lemma kills_memory asg q b : In b (kill_tensors_at asg q) -> is_memory_binding b = true.
Proof. intro H. apply kill_tensors_at_In in H as (r & t & v & _ & _ & _ & ->). reflexivity. Qed.

Lemma kills_no_creation t asg q b : In b (kill_tensors_at asg q) -> is_creation t b = false.
Proof. intro H. apply kill_tensors_at_In in H as (r & t' & v & _ & _ & _ & ->). reflexivity. Qed.

Lemma filter_rewrite_body toks asg q bs :
  (forall i r t, find_assign (q + i) asg = Some (r, t) ->
     exists bi, nth_error bs i = Some bi /\ is_memory_binding bi = true) ->
  filter (fun b => negb (is_memory_binding b)) (rewrite_body toks asg q bs)
  = filter (fun b => negb (is_memory_binding b)) bs.
Proof.
  revert q; induction bs as [| b bs IH]; intros q H; [reflexivity |].
  cbn [rewrite_body]. rewrite filter_app, IH.
  2:{ intros i r t Hf. apply (H (S i) r t). rewrite <- Nat.add_succ_comm. exact Hf. }
  assert (Hk : @filter (var * expr) (fun b : binding => negb (is_memory_binding b)) (kill_tensors_at asg q) = [])
    by (apply filter_nil_none; intros x Hx; rewrite (kills_memory _ _ _ Hx); reflexivity).
  unfold rewrite_binding. rewrite filter_app, Hk, app_nil_r.
  destruct (find_assign q asg) as [[r t] |] eqn:Ef.
  - destruct (H 0 r t) as (bi & Hbi & Hm); [rewrite Nat.add_0_r; exact Ef |].
    simpl in Hbi. inversion Hbi; subst bi. simpl. rewrite Hm. simpl.
    rewrite filter_app.
    destruct (tk_first (nth t toks default_token) =? q); simpl;
      unfold alloc_storage_of; try destruct (tk_class _) as [[? ?] ?]; reflexivity.
  - simpl. destruct (negb (is_memory_binding b)); reflexivity.
Qed.

Lemma creations_of_app t l1 l2 : creations_of t (l1 ++ l2) = creations_of t l1 + creations_of t l2.
Proof. unfold creations_of. rewrite filter_app, length_app. reflexivity. Qed.

Lemma creations_rewrite_binding toks asg t q b :
  is_creation t b = false ->
  creations_of t (rewrite_binding toks asg q b) = if creates toks asg t q then 1 else 0.
Proof.
  intro H.
  assert (Hk : creations_of t (kill_tensors_at asg q) = 0)
    by (apply filter_length_none; intros x Hx; exact (kills_no_creation _ _ _ _ Hx)).
  unfold rewrite_binding, creates. rewrite creations_of_app, Hk, Nat.add_0_r.
  destruct (find_assign q asg) as [[r t'] |].
  - rewrite creations_of_app.
    change (creations_of t [(fst b, EMemAllocTensor (VStorage t') 0 (ar_shape r) (ar_dtype r))])
      with 0.
    rewrite Nat.add_0_r.
    destruct (tk_first (nth t' toks default_token) =? q);
      [rewrite andb_true_r | rewrite andb_false_r; reflexivity].
    unfold creations_of, is_creation, alloc_storage_of.
    destruct (tk_class _) as [[? ?] ?]. simpl.
    destruct (t' =? t); reflexivity.
  - unfold creations_of. simpl. rewrite H. reflexivity.
Qed.

Lemma creations_rewrite_body toks asg t q bs :
  (forall b, In b bs -> is_creation t b = false) ->
  creations_of t (rewrite_body toks asg q bs)
  = List.length (filter (creates toks asg t) (seq q (List.length bs))).
Proof.
  revert q; induction bs as [| b bs IH]; intros q H; [reflexivity |].
  cbn [rewrite_body List.length seq]. rewrite creations_of_app, IH.
  2:{ intros b' Hb'. apply H. right. exact Hb'. }
  rewrite (creations_rewrite_binding _ _ _ _ _ (H b (or_introl eq_refl))).
  simpl. destruct (creates toks asg t q); reflexivity.
Qed.

Lemma count_eqb_seq k a n :
  List.length (filter (fun i => i =? k) (seq a n)) = if (a <=? k) && (k <? a + n) then 1 else 0.
Proof.
  revert a; induction n as [| n IH]; intro a; cbn [seq filter].
  - rewrite Nat.add_0_r. destruct (Nat.leb_spec a k), (Nat.ltb_spec k a); simpl; lia.
  - rewrite <- Nat.add_succ_comm.
    destruct (Nat.eqb_spec a k) as [-> | Hne]; cbn [List.length]; rewrite IH.
    + destruct (Nat.leb_spec (S k) k), (Nat.leb_spec k k), (Nat.ltb_spec k (S k + n));
        simpl; lia.
    + destruct (Nat.leb_spec (S a) k), (Nat.leb_spec a k), (Nat.ltb_spec k (S a + n));
        simpl; lia.
Qed.

Lemma kill_in_kills asg r t q v :
  In (r, t) asg -> ar_last r = Some q -> In v (ar_var r :: ar_views r) ->
  In (unit_var, EKillTensor v) (kill_tensors_at asg q).
Proof.
  intros Hrt Hl Hv. unfold kill_tensors_at. apply in_flat_map. exists (r, t).
  split; [exact Hrt |]. cbn [fst]. unfold last_is. rewrite Hl, Nat.eqb_refl.
  apply in_map_iff. exists v. auto.
Qed.

(** The binding at a last use is a kernel call or a tuple, and it is copied
    unchanged by the Rewriter. *)
Lemma last_use_binding (f : function) r t q :
  In (r, t) (snd (plan f)) -> ar_last r = Some q ->
  ar_def r < q /\ exists bq, nth_error (body f) q = Some bq
    /\ ((exists k ins outs, snd bq = ECallKernel k ins outs) \/ (exists fs, snd bq = ETuple fs))
    /\ find_assign q (snd (plan f)) = None.
Proof.
  intros Hrt Hl. destruct (record_last_use f r q (asg_record f r t Hrt) Hl)
    as [Hdq (bq & e & Hbq & Huse)].
  assert (Hkind : (exists k ins outs, snd bq = ECallKernel k ins outs) \/ (exists fs, snd bq = ETuple fs)).
  { destruct bq as [x ex]. destruct ex; simpl in Huse |- *; try contradiction; eauto. }
  split; [exact Hdq |]. exists bq. split; [exact Hbq | split; [exact Hkind |]].
  destruct (find_assign q (snd (plan f))) as [[r' t'] |] eqn:Ef; [exfalso | reflexivity].
  apply find_assign_some in Ef as [Hrt' Hd]. pose proof (alloc_binding_at f r' t' Hrt') as Hb'.
  rewrite Hd, Hbq in Hb'. inversion Hb'; subst bq.
  destruct Hkind as [(k & ins & outs & Hk) | (fs & Hk)]; discriminate Hk.
Qed.

(** ** Further properties of the pass *)

(** The pass keeps the parameters and the return variable, and every binding
    outside the memory dialect, in its order: it only adds, drops or
    replaces allocation and release bindings. *)
Theorem compute_bindings_preserved (f : function) :
  params (StaticPlanBlockMemory f) = params f
  /\ ret (StaticPlanBlockMemory f) = ret f
  /\ filter (fun b => negb (is_memory_binding b)) (body (StaticPlanBlockMemory f))
     = filter (fun b => negb (is_memory_binding b)) (body f).
Proof.
  destruct (plannable f) eqn:Hp; [| rewrite SPBM_blocked by exact Hp; auto].
  rewrite SPBM_planned by exact Hp. cbn [params ret body].
  split; [reflexivity | split; [reflexivity |]].
  rewrite filter_app.
  rewrite (filter_nil_none _ (kill_storages (List.length (fst (plan f))))).
  2:{ intros x Hx. apply kill_storages_In in Hx as (k & _ & ->). reflexivity. }
  rewrite app_nil_r. apply filter_rewrite_body.
  intros i r t Hf. apply find_assign_some in Hf as [Hrt Hd]. cbn [Nat.add] in Hd.
  eexists. rewrite <- Hd. split; [exact (alloc_binding_at f r t Hrt) | reflexivity].
Qed.

(** Every token of a planned function has exactly one pool creation in the
    output, and no other storage index has one. *)
Theorem one_creation_per_token (f : function) :
  plannable f = true ->
  forall t, creations_of t (body (StaticPlanBlockMemory f))
            = if t <? List.length (fst (plan f)) then 1 else 0.
Proof.
  intros Hp t. destruct (plan_inv f) as [d Hinv].
  rewrite SPBM_planned by exact Hp. cbn [body]. rewrite creations_of_app.
  assert (Hks : creations_of t (kill_storages (List.length (fst (plan f)))) = 0).
  { apply filter_length_none. intros x Hx. apply kill_storages_In in Hx as (k & _ & ->).
    reflexivity. }
  rewrite Hks, Nat.add_0_r, creations_rewrite_body.
  2:{ intros b Hb. apply In_nth_error in Hb as [i Hi].
      pose proof (plannable_binding f i b Hp Hi) as Hr.
      destruct b as [x e]. unfold is_creation, binding_recognized in *. simpl in *.
      destruct e; try reflexivity; discriminate Hr. }
  destruct (Nat.ltb_spec t (List.length (fst (plan f)))) as [Ht | Ht].
  - destruct (ai_first _ _ _ Hinv t Ht) as [r0 [Hr0 Hf0]].
    pose proof (alloc_binding_at f r0 t Hr0) as Hb0.
    assert (Hlt : ar_def r0 < List.length (body f))
      by (apply nth_error_Some; rewrite Hb0; discriminate).
    rewrite (filter_ext_in _ (fun i => i =? ar_def r0)).
    + rewrite count_eqb_seq.
      destruct (Nat.leb_spec 0 (ar_def r0)), (Nat.ltb_spec (ar_def r0) (0 + List.length (body f)));
        simpl; lia.
    + intros i _. unfold creates.
      destruct (find_assign i (snd (plan f))) as [[r t'] |] eqn:Ef.
      * apply find_assign_some in Ef as [Hrt Hd].
        destruct (Nat.eqb_spec t' t) as [-> | Hne]; simpl.
        -- change (nth t (fst (plan f)) default_token) with (tok (fst (plan f)) t).
           rewrite <- Hf0. apply Nat.eqb_sym.
        -- symmetry. apply Nat.eqb_neq. intro Hi. apply Hne.
           assert (Hd' : ar_def r = ar_def r0) by lia.
           exact (proj2 (ai_func _ _ _ Hinv r t' r0 t Hrt Hr0 Hd')).
      * symmetry. apply Nat.eqb_neq. intro Hi. subst i.
        rewrite (find_assign_in _ _ _ r0 t Hinv Hr0) in Ef. discriminate Ef.
  - apply filter_length_none. intros i _. unfold creates.
    destruct (find_assign i _) as [[r t'] |] eqn:Ef; [| reflexivity].
    apply find_assign_some in Ef as [Hrt _].
    destruct (ai_tenant _ _ _ Hinv r t' Hrt) as [Ht' _].
    destruct (Nat.eqb_spec t' t); [lia | reflexivity].
Qed.

Lemma one_creation_per_token_witness :
  plannable Tests.basic_main = true
  /\ creations_of 0 (body (StaticPlanBlockMemory Tests.basic_main)) = 1
  /\ creations_of 2 (body (StaticPlanBlockMemory Tests.basic_main)) = 0.
Proof.
  assert (Hp : plannable Tests.basic_main = true) by (vm_compute; reflexivity).
  pose proof (one_creation_per_token Tests.basic_main Hp) as H.
  split; [exact Hp | split].
  - rewrite (H 0). vm_compute. reflexivity.
  - rewrite (H 2). vm_compute. reflexivity.
Defined.

(** Every materialization in the output is at offset 0 of a storage
    [VStorage t] of a token, and the pool creation of that token comes
    before it. *)
Theorem storage_before_materialize (f : function) v s off sh dt :
  plannable f = true ->
  In (v, EMemAllocTensor s off sh dt) (body (StaticPlanBlockMemory f)) ->
  exists t, s = VStorage t /\ off = 0%Z /\ t < List.length (fst (plan f))
    /\ before (VStorage t, alloc_storage_of (tok (fst (plan f)) t))
              (v, EMemAllocTensor s off sh dt) (body (StaticPlanBlockMemory f)).
Proof.
  intros Hp Hin. destruct (plan_inv f) as [d Hinv]. pose proof (plan_hist_f f) as Hh.
  apply output_cases in Hin as [Hin | (t & _ & H)]; [| discriminate H | exact Hp].
  apply pre_cases in Hin
    as [(i & Hn & _) | [(r & t & Hrt & Ht & [H | H]) | (r & t & w & _ & _ & _ & H)]].
  - apply (plannable_binding f i _ Hp) in Hn. discriminate Hn.
  - unfold alloc_storage_of in H. destruct (tk_class _) as [[? ?] ?]. discriminate H.
  - injection H as -> -> -> -> ->.
    exists t. split; [reflexivity | split; [reflexivity | split; [exact Ht |]]].
    rewrite SPBM_planned by exact Hp. cbn [body]. apply before_app_l.
    destruct (ai_first _ _ _ Hinv t Ht) as [r0 [Hr0 Hf0]].
    pose proof (ph_first _ _ Hh r t Hrt) as Hle.
    destruct (Nat.eq_dec (ar_def r0) (ar_def r)) as [Heq | Hne].
    + destruct (ai_func _ _ _ Hinv r0 t r t Hr0 Hrt Heq) as [-> _].
      apply (before_segment _ _ 0 _ (ar_def r) _ _ _ (alloc_binding_at f r t Hrt)).
      cbn [Nat.add]. rewrite (segment_planned f r t Hrt), <- Hf0, Nat.eqb_refl.
      eexists [_], _. split; [reflexivity | split; [left; reflexivity | left; reflexivity]].
    + assert (Hlt : ar_def r0 < ar_def r) by lia.
      apply (before_segments _ _ 0 _ (ar_def r0) (ar_def r) _ _ _ _ Hlt
               (alloc_binding_at f r0 t Hr0) (alloc_binding_at f r t Hrt)).
      * cbn [Nat.add]. rewrite (segment_planned f r0 t Hr0), <- Hf0, Nat.eqb_refl.
        apply in_or_app; left; apply in_or_app; left; left; reflexivity.
      * cbn [Nat.add]. rewrite (segment_planned f r t Hrt).
        apply in_or_app; left; apply in_or_app; right; left; reflexivity.
  - discriminate H.
Qed.

Lemma storage_before_materialize_witness :
  In (V "alloc2", EMemAllocTensor (VStorage 0) 0 [DConst 8] DFloat32)
     (body (StaticPlanBlockMemory Tests.basic_main))
  /\ before (VStorage 0, alloc_storage_of (tok (fst (plan Tests.basic_main)) 0))
            (V "alloc2", EMemAllocTensor (VStorage 0) 0 [DConst 8] DFloat32)
            (body (StaticPlanBlockMemory Tests.basic_main)).
Proof.
  assert (Hp : plannable Tests.basic_main = true) by (vm_compute; reflexivity).
  assert (Hin : In (V "alloc2", EMemAllocTensor (VStorage 0) 0 [DConst 8] DFloat32)
                   (body (StaticPlanBlockMemory Tests.basic_main))).
  { vm_compute. do 11 right. left. reflexivity. }
  destruct (storage_before_materialize Tests.basic_main _ _ _ _ _ Hp Hin)
    as (t & Hs & _ & _ & Hb).
  injection Hs as <-. split; [exact Hin | exact Hb].
Defined.

(** A token is opened only when every older token of the same class is busy:
    for tokens [t1 < t2] of one class, some tenant of [t1] is defined before
    the first tenant of [t2] and still live at its definition. *)
Theorem new_token_only_when_busy (f : function) t1 t2 :
  t1 < t2 -> t2 < List.length (fst (plan f)) ->
  tk_class (tok (fst (plan f)) t1) = tk_class (tok (fst (plan f)) t2) ->
  exists r r2, In (r, t1) (snd (plan f)) /\ In (r2, t2) (snd (plan f))
    /\ (forall r', In (r', t2) (snd (plan f)) -> ar_def r2 <= ar_def r')
    /\ ar_def r < ar_def r2 <= ar_end r.
Proof.
  intros H12 H2 Hc. destruct (plan_inv f) as [d Hinv]. pose proof (plan_hist_f f) as Hh.
  destruct (ph_busy _ _ Hh t1 t2 (conj H12 H2) Hc) as (r & Hr & Hb).
  destruct (ai_first _ _ _ Hinv t2 H2) as (r2 & Hr2 & Hf2).
  exists r, r2. split; [exact Hr | split; [exact Hr2 | split]].
  - intros r' Hr'. rewrite Hf2. exact (ph_first _ _ Hh r' t2 Hr').
  - rewrite Hf2. exact Hb.
Qed.

Lemma new_token_only_when_busy_witness :
  0 < 1 /\ 1 < List.length (fst (plan Tests.basic_main))
  /\ exists r r2, In (r, 0) (snd (plan Tests.basic_main)) /\ In (r2, 1) (snd (plan Tests.basic_main))
     /\ ar_def r < ar_def r2 <= ar_end r.
Proof.
  assert (H2 : 1 < List.length (fst (plan Tests.basic_main))) by (vm_compute; lia).
  assert (Hc : tk_class (tok (fst (plan Tests.basic_main)) 0)
               = tk_class (tok (fst (plan Tests.basic_main)) 1)) by (vm_compute; reflexivity).
  destruct (new_token_only_when_busy Tests.basic_main 0 1 ltac:(lia) H2 Hc)
    as (r & r2 & Hr & Hr2 & _ & Hb).
  split; [lia | split; [exact H2 |]]. exists r, r2. auto.
Defined.

(** A function with no plannable allocation is returned unchanged. *)
Theorem no_planned_alloc_unchanged (f : function) :
  alloc_records f = [] -> StaticPlanBlockMemory f = f.
Proof.
  intro H. destruct (plannable f) eqn:Hp; [| exact (SPBM_blocked f Hp)].
  rewrite SPBM_planned by exact Hp. unfold plan, plan_tokens. rewrite H.
  cbn [fold_left fst snd List.length kill_storages seq map].
  rewrite rewrite_body_no_plan, app_nil_r. destruct f; reflexivity.
Qed.

Lemma no_planned_alloc_unchanged_witness :
  alloc_records Tests.reshape_param_main = []
  /\ StaticPlanBlockMemory Tests.reshape_param_main = Tests.reshape_param_main.
Proof.
  assert (H : alloc_records Tests.reshape_param_main = []) by (vm_compute; reflexivity).
  split; [exact H | exact (no_planned_alloc_unchanged Tests.reshape_param_main H)].
Defined.

Lemma before_in_r (b1 b2 : binding) l : before b1 b2 l -> In b2 l.
Proof. intros (l1 & l2 & -> & _ & H2). apply in_or_app. right. exact H2. Qed.

(** Order of a tensor release in the output: for a planned allocation [r] of
    token [t] whose last use is at [q], the release of [r] (or of one of its
    views) comes after the materialization of [r] and after the kernel call
    or tuple at [q], which is copied unchanged; it comes before the
    materialization of every later tenant of [t] and before the release of
    the pool [t]. *)
Theorem release_order (f : function) r t q v :
  plannable f = true -> In (r, t) (snd (plan f)) -> ar_last r = Some q ->
  In v (ar_var r :: ar_views r) ->
  before (ar_var r, EMemAllocTensor (VStorage t) 0 (ar_shape r) (ar_dtype r))
         (unit_var, EKillTensor v) (body (StaticPlanBlockMemory f))
  /\ (exists bq, nth_error (body f) q = Some bq
        /\ ((exists k ins outs, snd bq = ECallKernel k ins outs) \/ (exists fs, snd bq = ETuple fs))
        /\ before bq (unit_var, EKillTensor v) (body (StaticPlanBlockMemory f)))
  /\ (forall r2, In (r2, t) (snd (plan f)) -> ar_def r < ar_def r2 ->
        before (unit_var, EKillTensor v)
               (ar_var r2, EMemAllocTensor (VStorage t) 0 (ar_shape r2) (ar_dtype r2))
               (body (StaticPlanBlockMemory f)))
  /\ before (unit_var, EKillTensor v) (unit_var, EKillStorage (VStorage t))
            (body (StaticPlanBlockMemory f)).
Proof.
  intros Hp Hrt Hl Hv. destruct (plan_inv f) as [d Hinv].
  destruct (last_use_binding f r t q Hrt Hl) as [Hdq (bq & Hbq & Hkind & Hnone)].
  assert (Hmat : forall r2, In (r2, t) (snd (plan f)) ->
            In (ar_var r2, EMemAllocTensor (VStorage t) 0 (ar_shape r2) (ar_dtype r2))
               (rewrite_binding (fst (plan f)) (snd (plan f)) (0 + ar_def r2)
                  (ar_var r2, EAllocTensor (ar_shape r2) (ar_dtype r2) (ar_dev r2) (ar_scope r2)))).
  { intros r2 Hr2. cbn [Nat.add]. rewrite (segment_planned f r2 t Hr2).
    apply in_or_app; left; apply in_or_app; right; left; reflexivity. }
  assert (Hkill : In (unit_var, EKillTensor v)
                     (rewrite_binding (fst (plan f)) (snd (plan f)) (0 + q) bq))
    by exact (kill_in_segment _ _ r t q v bq Hrt Hl Hv).
  assert (H1 : before (ar_var r, EMemAllocTensor (VStorage t) 0 (ar_shape r) (ar_dtype r))
                      (unit_var, EKillTensor v)
                      (rewrite_body (fst (plan f)) (snd (plan f)) 0 (body f)))
    by exact (before_segments _ _ 0 _ (ar_def r) q _ _ _ _ Hdq
                (alloc_binding_at f r t Hrt) Hbq (Hmat r Hrt) Hkill).
  rewrite SPBM_planned by exact Hp. cbn [body].
  split; [apply before_app_l; exact H1 |].
  split; [| split].
  - exists bq. split; [exact Hbq | split; [exact Hkind |]]. apply before_app_l.
    apply (before_segment _ _ 0 _ q _ _ _ Hbq). cbn [Nat.add].
    rewrite (segment_unplanned _ _ q bq Hnone).
    exists [bq], (kill_tensors_at (snd (plan f)) q).
    split; [reflexivity | split; [left; reflexivity |]].
    exact (kill_in_kills _ r t q v Hrt Hl Hv).
  - intros r2 Hr2 Hlt. apply before_app_l.
    pose proof (ai_disjoint _ _ _ Hinv r r2 t Hrt Hr2 Hlt) as Hend.
    unfold ar_end in Hend. rewrite Hl in Hend.
    exact (before_segments _ _ 0 _ q (ar_def r2) _ _ _ _ Hend Hbq
             (alloc_binding_at f r2 t Hr2) Hkill (Hmat r2 Hr2)).
  - apply before_cross; [exact (before_in_r _ _ _ H1) |].
    apply kill_storages_In. exists t. split; [| reflexivity].
    exact (proj1 (ai_tenant _ _ _ Hinv r t Hrt)).
Qed.

Lemma release_order_witness :
  exists r, In (r, 0) (snd (plan Tests.basic_main)) /\ ar_last r = Some 5
  /\ before (ar_var r, EMemAllocTensor (VStorage 0) 0 (ar_shape r) (ar_dtype r))
            (unit_var, EKillTensor (ar_var r)) (body (StaticPlanBlockMemory Tests.basic_main))
  /\ before (unit_var, EKillTensor (ar_var r)) (unit_var, EKillStorage (VStorage 0))
            (body (StaticPlanBlockMemory Tests.basic_main)).
Proof.
  assert (Hp : plannable Tests.basic_main = true) by (vm_compute; reflexivity).
  set (r := asg_rec Tests.basic_main 0).
  assert (Hrt : In (r, 0) (snd (plan Tests.basic_main))) by (vm_compute; left; reflexivity).
  assert (Hl : ar_last r = Some 5) by (vm_compute; reflexivity).
  destruct (release_order Tests.basic_main r 0 5 (ar_var r) Hp Hrt Hl (or_introl eq_refl))
    as (H1 & _ & _ & H4).
  exists r. auto.
Defined.

(** ** Pool bytes *)

Lemma total_cap_app (l m : list token) :
  total_cap (l ++ m) = (total_cap l + total_cap m)%Z.
Proof. induction l as [| x l IH]; simpl; [reflexivity | rewrite IH; lia]. Qed.

Lemma total_cap_update_nth (i : nat) (g : token -> token) (l : list token) (s : Z) :
  (0 <= s)%Z -> Forall (fun tk => 0 <= tk_cap tk)%Z l ->
  (forall x, 0 <= tk_cap x -> tk_cap (g x) <= tk_cap x + s)%Z ->
  (total_cap (update_nth i g l) <= total_cap l + s)%Z.
Proof.
  intros Hs Hl Hg. revert i; induction Hl as [| x l Hx Hl IH]; intros [| i]; simpl; try lia.
  - specialize (Hg x Hx). lia.
  - specialize (IH i). lia.
Qed.

Lemma update_nth_Forall (P : token -> Prop) (i : nat) (g : token -> token) (l : list token) :
  Forall P l -> (forall x, P x -> P (g x)) -> Forall P (update_nth i g l).
Proof.
  intros Hl Hg. revert i; induction Hl as [| x l Hx Hl IH]; intros [| i]; simpl;
    constructor; auto.
Qed.

Lemma assign_one_total (st : plan_state) (r : alloc_rec) :
  (0 <= ar_size r)%Z -> Forall (fun tk => 0 <= tk_cap tk)%Z (fst st) ->
  (total_cap (fst (assign_one st r)) <= total_cap (fst st) + ar_size r)%Z
  /\ Forall (fun tk => 0 <= tk_cap tk)%Z (fst (assign_one st r)).
Proof.
  destruct st as [toks asg]. intros Hs Hn. simpl in Hn |- *.
  destruct (pick toks (ar_class r) (ar_def r)) as [i |]; simpl.
  - split.
    + apply total_cap_update_nth; [exact Hs | exact Hn |]. intros x Hx. simpl. lia.
    + apply update_nth_Forall; [exact Hn |]. intros x Hx. simpl. lia.
  - rewrite total_cap_app. simpl. split; [lia |].
    apply Forall_app. split; [exact Hn | constructor; [simpl; lia | constructor]].
Qed.

Lemma plan_fold_total (rs : list alloc_rec) (st : plan_state) :
  (forall r, In r rs -> 0 <= ar_size r)%Z -> Forall (fun tk => 0 <= tk_cap tk)%Z (fst st) ->
  (total_cap (fst (fold_left assign_one rs st)) <= total_cap (fst st) + total_size rs)%Z.
Proof.
  revert st; induction rs as [| r rs IH]; intros st Hs Hn; simpl; [lia |].
  destruct (assign_one_total st r (Hs r (or_introl eq_refl)) Hn) as [H1 H2].
  specialize (IH (assign_one st r) (fun r' Hr' => Hs r' (or_intror Hr')) H2). lia.
Qed.

(** Planning never reserves more bytes than the planned allocations would
    take one by one: the capacities of the tokens add up to at most the sum
    of the sizes of the allocation records. *)
Theorem pool_bytes_le_alloc_bytes (f : function) :
  (forall r, In r (alloc_records f) -> 0 <= ar_size r)%Z ->
  (total_cap (fst (plan f)) <= total_size (alloc_records f))%Z.
Proof.
  intro Hs. unfold plan, plan_tokens.
  pose proof (plan_fold_total (alloc_records f) ([], []) Hs (Forall_nil _)) as H.
  simpl in H. lia.
Qed.

Lemma pool_bytes_le_alloc_bytes_witness :
  (forall r, In r (alloc_records Tests.basic_main) -> 0 <= ar_size r)%Z
  /\ (total_cap (fst (plan Tests.basic_main)) <= total_size (alloc_records Tests.basic_main))%Z.
Proof.
  assert (Hs : forall r, In r (alloc_records Tests.basic_main) -> (0 <= ar_size r)%Z).
  { intros r Hr. vm_compute in Hr.
    repeat (destruct Hr as [<- | Hr]; [vm_compute; discriminate |]). contradiction. }
  split; [exact Hs | exact (pool_bytes_le_alloc_bytes Tests.basic_main Hs)].
Defined.
